(** * PS/2 decoder and keyboard-state tracker (ps2.c)

    A shallow embedding of [ps2.c]: the two scancode tables, the keyboard
    state ([g_modifiers], [g_keys], [g_state_changed]), the frame decoder
    ([frame_bit_index], [scancode_byte], the two prefix flags, [last_clk])
    and the functions that act on them.  The C globals become two records
    that are threaded through the functions; the two GPIO reads of
    [ps2_task] become its arguments. *)

From stdpp Require Import base numbers list.

Local Open Scope Z_scope.

(** ** Machine integers *)

(** Conversion to [uint8_t]. *)
Definition u8 (z : Z) : Z := z mod 256.

Definition is_u8 (z : Z) : Prop := 0 <= z < 256.

(** ** HID keycode definitions *)

Module Hid.

Definition HID_KEY_A : Z := 0x04.
Definition HID_KEY_B : Z := 0x05.
Definition HID_KEY_C : Z := 0x06.
Definition HID_KEY_D : Z := 0x07.
Definition HID_KEY_E : Z := 0x08.
Definition HID_KEY_F : Z := 0x09.
Definition HID_KEY_G : Z := 0x0A.
Definition HID_KEY_H : Z := 0x0B.
Definition HID_KEY_I : Z := 0x0C.
Definition HID_KEY_J : Z := 0x0D.
Definition HID_KEY_K : Z := 0x0E.
Definition HID_KEY_L : Z := 0x0F.
Definition HID_KEY_M : Z := 0x10.
Definition HID_KEY_N : Z := 0x11.
Definition HID_KEY_O : Z := 0x12.
Definition HID_KEY_P : Z := 0x13.
Definition HID_KEY_Q : Z := 0x14.
Definition HID_KEY_R : Z := 0x15.
Definition HID_KEY_S : Z := 0x16.
Definition HID_KEY_T : Z := 0x17.
Definition HID_KEY_U : Z := 0x18.
Definition HID_KEY_V : Z := 0x19.
Definition HID_KEY_W : Z := 0x1A.
Definition HID_KEY_X : Z := 0x1B.
Definition HID_KEY_Y : Z := 0x1C.
Definition HID_KEY_Z : Z := 0x1D.

Definition HID_KEY_1 : Z := 0x1E.
Definition HID_KEY_2 : Z := 0x1F.
Definition HID_KEY_3 : Z := 0x20.
Definition HID_KEY_4 : Z := 0x21.
Definition HID_KEY_5 : Z := 0x22.
Definition HID_KEY_6 : Z := 0x23.
Definition HID_KEY_7 : Z := 0x24.
Definition HID_KEY_8 : Z := 0x25.
Definition HID_KEY_9 : Z := 0x26.
Definition HID_KEY_0 : Z := 0x27.

Definition HID_KEY_ENTER : Z := 0x28.
Definition HID_KEY_ESCAPE : Z := 0x29.
Definition HID_KEY_BACKSPACE : Z := 0x2A.
Definition HID_KEY_TAB : Z := 0x2B.
Definition HID_KEY_SPACE : Z := 0x2C.
Definition HID_KEY_MINUS : Z := 0x2D.
Definition HID_KEY_EQUAL : Z := 0x2E.
Definition HID_KEY_BRACKET_LEFT : Z := 0x2F.
Definition HID_KEY_BRACKET_RIGHT : Z := 0x30.
Definition HID_KEY_BACKSLASH : Z := 0x31.
Definition HID_KEY_SEMICOLON : Z := 0x33.
Definition HID_KEY_APOSTROPHE : Z := 0x34.
Definition HID_KEY_GRAVE : Z := 0x35.
Definition HID_KEY_COMMA : Z := 0x36.
Definition HID_KEY_PERIOD : Z := 0x37.
Definition HID_KEY_SLASH : Z := 0x38.
Definition HID_KEY_CAPS_LOCK : Z := 0x39.

Definition HID_KEY_F1 : Z := 0x3A.
Definition HID_KEY_F2 : Z := 0x3B.
Definition HID_KEY_F3 : Z := 0x3C.
Definition HID_KEY_F4 : Z := 0x3D.
Definition HID_KEY_F5 : Z := 0x3E.
Definition HID_KEY_F6 : Z := 0x3F.
Definition HID_KEY_F7 : Z := 0x40.
Definition HID_KEY_F8 : Z := 0x41.
Definition HID_KEY_F9 : Z := 0x42.
Definition HID_KEY_F10 : Z := 0x43.
Definition HID_KEY_F11 : Z := 0x44.
Definition HID_KEY_F12 : Z := 0x45.

Definition HID_KEY_PRINT_SCREEN : Z := 0x46.
Definition HID_KEY_SCROLL_LOCK : Z := 0x47.
Definition HID_KEY_PAUSE : Z := 0x48.

Definition HID_KEY_INSERT : Z := 0x49.
Definition HID_KEY_HOME : Z := 0x4A.
Definition HID_KEY_PAGE_UP : Z := 0x4B.
Definition HID_KEY_DELETE : Z := 0x4C.
Definition HID_KEY_END : Z := 0x4D.
Definition HID_KEY_PAGE_DOWN : Z := 0x4E.
Definition HID_KEY_ARROW_RIGHT : Z := 0x4F.
Definition HID_KEY_ARROW_LEFT : Z := 0x50.
Definition HID_KEY_ARROW_DOWN : Z := 0x51.
Definition HID_KEY_ARROW_UP : Z := 0x52.

Definition HID_KEY_NUM_LOCK : Z := 0x53.
Definition HID_KEY_KEYPAD_DIVIDE : Z := 0x54.
Definition HID_KEY_KEYPAD_MULTIPLY : Z := 0x55.
Definition HID_KEY_KEYPAD_SUBTRACT : Z := 0x56.
Definition HID_KEY_KEYPAD_ADD : Z := 0x57.
Definition HID_KEY_KEYPAD_ENTER : Z := 0x58.
Definition HID_KEY_KEYPAD_1 : Z := 0x59.
Definition HID_KEY_KEYPAD_2 : Z := 0x5A.
Definition HID_KEY_KEYPAD_3 : Z := 0x5B.
Definition HID_KEY_KEYPAD_4 : Z := 0x5C.
Definition HID_KEY_KEYPAD_5 : Z := 0x5D.
Definition HID_KEY_KEYPAD_6 : Z := 0x5E.
Definition HID_KEY_KEYPAD_7 : Z := 0x5F.
Definition HID_KEY_KEYPAD_8 : Z := 0x60.
Definition HID_KEY_KEYPAD_9 : Z := 0x61.
Definition HID_KEY_KEYPAD_0 : Z := 0x62.
Definition HID_KEY_KEYPAD_DECIMAL : Z := 0x63.

Definition HID_MOD_LEFT_CTRL : Z := 0x01.
Definition HID_MOD_LEFT_SHIFT : Z := 0x02.
Definition HID_MOD_LEFT_ALT : Z := 0x04.
Definition HID_MOD_LEFT_GUI : Z := 0x08.
Definition HID_MOD_RIGHT_CTRL : Z := 0x10.
Definition HID_MOD_RIGHT_SHIFT : Z := 0x20.
Definition HID_MOD_RIGHT_ALT : Z := 0x40.
Definition HID_MOD_RIGHT_GUI : Z := 0x80.

Definition HID_KEY_APPLICATION : Z := 0x65.

End Hid.

Import Hid.

(** ** Scancode tables

    Both tables are [uint8_t[256]] arrays with designated initialisers;
    every index that is not listed holds 0. *)

Definition scancode_to_hid (code : Z) : Z :=
  match code with
  | 0x01 => HID_KEY_F9
  | 0x03 => HID_KEY_F5
  | 0x04 => HID_KEY_F3
  | 0x05 => HID_KEY_F1
  | 0x06 => HID_KEY_F2
  | 0x07 => HID_KEY_F12
  | 0x09 => HID_KEY_F10
  | 0x0A => HID_KEY_F8
  | 0x0B => HID_KEY_F6
  | 0x0C => HID_KEY_F4
  | 0x0D => HID_KEY_TAB
  | 0x0E => HID_KEY_GRAVE
  | 0x11 => 0xFF
  | 0x12 => 0xFE
  | 0x14 => 0xFD
  | 0x15 => HID_KEY_Q
  | 0x16 => HID_KEY_1
  | 0x1A => HID_KEY_Z
  | 0x1B => HID_KEY_S
  | 0x1C => HID_KEY_A
  | 0x1D => HID_KEY_W
  | 0x1E => HID_KEY_2
  | 0x21 => HID_KEY_C
  | 0x22 => HID_KEY_X
  | 0x23 => HID_KEY_D
  | 0x24 => HID_KEY_E
  | 0x25 => HID_KEY_4
  | 0x26 => HID_KEY_3
  | 0x29 => HID_KEY_SPACE
  | 0x2A => HID_KEY_V
  | 0x2B => HID_KEY_F
  | 0x2C => HID_KEY_T
  | 0x2D => HID_KEY_R
  | 0x2E => HID_KEY_5
  | 0x31 => HID_KEY_N
  | 0x32 => HID_KEY_B
  | 0x33 => HID_KEY_H
  | 0x34 => HID_KEY_G
  | 0x35 => HID_KEY_Y
  | 0x36 => HID_KEY_6
  | 0x3A => HID_KEY_M
  | 0x3B => HID_KEY_J
  | 0x3C => HID_KEY_U
  | 0x3D => HID_KEY_7
  | 0x3E => HID_KEY_8
  | 0x41 => HID_KEY_COMMA
  | 0x42 => HID_KEY_K
  | 0x43 => HID_KEY_I
  | 0x44 => HID_KEY_O
  | 0x45 => HID_KEY_0
  | 0x46 => HID_KEY_9
  | 0x49 => HID_KEY_PERIOD
  | 0x4A => HID_KEY_SLASH
  | 0x4B => HID_KEY_L
  | 0x4C => HID_KEY_SEMICOLON
  | 0x4D => HID_KEY_P
  | 0x4E => HID_KEY_MINUS
  | 0x52 => HID_KEY_APOSTROPHE
  | 0x54 => HID_KEY_BRACKET_LEFT
  | 0x55 => HID_KEY_EQUAL
  | 0x58 => 0xFC
  | 0x59 => 0xFB
  | 0x5A => HID_KEY_ENTER
  | 0x5B => HID_KEY_BRACKET_RIGHT
  | 0x5D => HID_KEY_BACKSLASH
  | 0x66 => HID_KEY_BACKSPACE
  | 0x69 => HID_KEY_KEYPAD_1
  | 0x6B => HID_KEY_KEYPAD_4
  | 0x6C => HID_KEY_KEYPAD_7
  | 0x70 => HID_KEY_KEYPAD_0
  | 0x71 => HID_KEY_KEYPAD_DECIMAL
  | 0x72 => HID_KEY_KEYPAD_2
  | 0x73 => HID_KEY_KEYPAD_5
  | 0x74 => HID_KEY_KEYPAD_6
  | 0x75 => HID_KEY_KEYPAD_8
  | 0x76 => HID_KEY_ESCAPE
  | 0x77 => HID_KEY_SCROLL_LOCK
  | 0x78 => HID_KEY_F11
  | 0x79 => HID_KEY_KEYPAD_ADD
  | 0x7A => HID_KEY_KEYPAD_3
  | 0x7B => HID_KEY_KEYPAD_SUBTRACT
  | 0x7C => HID_KEY_KEYPAD_MULTIPLY
  | 0x7D => HID_KEY_KEYPAD_9
  | 0x7E => HID_KEY_NUM_LOCK
  | 0x83 => HID_KEY_F7
  | _ => 0
  end.

Definition extended_scancode_to_hid (code : Z) : Z :=
  match code with
  | 0x11 => 0xFA
  | 0x14 => 0xF9
  | 0x1F => 0xF8
  | 0x27 => 0xF7
  | 0x2F => HID_KEY_APPLICATION
  | 0x4A => HID_KEY_KEYPAD_DIVIDE
  | 0x5A => HID_KEY_KEYPAD_ENTER
  | 0x69 => HID_KEY_END
  | 0x6B => HID_KEY_ARROW_LEFT
  | 0x6C => HID_KEY_HOME
  | 0x70 => HID_KEY_INSERT
  | 0x71 => HID_KEY_DELETE
  | 0x72 => HID_KEY_ARROW_DOWN
  | 0x74 => HID_KEY_ARROW_RIGHT
  | 0x75 => HID_KEY_ARROW_UP
  | 0x7A => HID_KEY_PAGE_DOWN
  | 0x7D => HID_KEY_PAGE_UP
  | _ => 0
  end.

(** ** Global state *)

(** The keyboard state: [g_modifiers], [g_keys\[6\]], [g_state_changed]. *)
Record kbd_state : Type := Kbd {
  g_modifiers : Z;
  g_keys : list Z;
  g_state_changed : bool
}.

(** The whole of the file's static state: the keyboard state and the
    frame decoding state. *)
Record ps2_state : Type := Ps2 {
  kbd : kbd_state;
  frame_bit_index : Z;
  scancode_byte : Z;
  break_pending : bool;
  extended_pending : bool;
  last_clk : bool
}.

(** What the C types guarantee: [g_keys] has six [uint8_t] slots and
    [g_modifiers] is a [uint8_t]. *)
Definition kbd_wf (k : kbd_state) : Prop :=
  is_u8 (g_modifiers k) ∧ length (g_keys k) = 6%nat ∧ Forall is_u8 (g_keys k).

(** The static initialisers. *)
Definition boot_kbd : kbd_state :=
  {| g_modifiers := 0; g_keys := replicate 6 0; g_state_changed := false |}.

Definition boot_state : ps2_state :=
  {| kbd := boot_kbd; frame_bit_index := 0; scancode_byte := 0;
     break_pending := false; extended_pending := false; last_clk := true |}.

(** ** Helper functions *)

Definition get_modifier_mask (hid_code : Z) : Z :=
  match hid_code with
  | 0xFF => HID_MOD_LEFT_ALT
  | 0xFE => HID_MOD_LEFT_SHIFT
  | 0xFD => HID_MOD_LEFT_CTRL
  | 0xFC => 0
  | 0xFB => HID_MOD_RIGHT_SHIFT
  | 0xFA => HID_MOD_RIGHT_ALT
  | 0xF9 => HID_MOD_RIGHT_CTRL
  | 0xF8 => HID_MOD_LEFT_GUI
  | 0xF7 => HID_MOD_RIGHT_GUI
  | _ => 0
  end.

(** The loop [for (int i = ...; i < 6; i++) if (g_keys\[i\] == v) ...]
    with [n] iterations left: the first index at or after [i] whose slot
    holds [v].  The three loops of [press_key] and [release_key] have
    this shape and leave at the first hit.  The C array always has six
    slots; on a shorter list an index past its end holds nothing and the
    scan moves on. *)
Fixpoint scan_keys (keys : list Z) (v : Z) (i : nat) (n : nat) : option nat :=
  match n with
  | O => None
  | S n' =>
      match keys !! i with
      | Some k => if k =? v then Some i else scan_keys keys v (S i) n'
      | None => scan_keys keys v (S i) n'
      end
  end.

Definition find_key (keys : list Z) (v : Z) : option nat :=
  scan_keys keys v 0 6.

Definition press_key (hid_code : Z) (k : kbd_state) : kbd_state :=
  if hid_code =? 0 then k
  else
    let mod_mask := get_modifier_mask hid_code in
    if negb (mod_mask =? 0) then
      if Z.land (g_modifiers k) mod_mask =? 0 then
        {| g_modifiers := u8 (Z.lor (g_modifiers k) mod_mask);
           g_keys := g_keys k;
           g_state_changed := true |}
      else k
    else
      let hid_code := if hid_code =? 0xFC then HID_KEY_CAPS_LOCK else hid_code in
      match find_key (g_keys k) hid_code with
      | Some _ => k
      | None =>
          match find_key (g_keys k) 0 with
          | Some i =>
              {| g_modifiers := g_modifiers k;
                 g_keys := <[i := hid_code]> (g_keys k);
                 g_state_changed := true |}
          | None => k
          end
      end.

Definition release_key (hid_code : Z) (k : kbd_state) : kbd_state :=
  if hid_code =? 0 then k
  else
    let mod_mask := get_modifier_mask hid_code in
    if negb (mod_mask =? 0) then
      if negb (Z.land (g_modifiers k) mod_mask =? 0) then
        {| g_modifiers := u8 (Z.land (g_modifiers k) (Z.lnot mod_mask));
           g_keys := g_keys k;
           g_state_changed := true |}
      else k
    else
      let hid_code := if hid_code =? 0xFC then HID_KEY_CAPS_LOCK else hid_code in
      match find_key (g_keys k) hid_code with
      | Some i =>
          {| g_modifiers := g_modifiers k;
             g_keys := <[i := 0]> (g_keys k);
             g_state_changed := true |}
      | None => k
      end.

Definition handle_scancode (code : Z) (is_break is_extended : bool)
    (k : kbd_state) : kbd_state :=
  let hid_code :=
    if is_extended then extended_scancode_to_hid code
    else scancode_to_hid code in
  if hid_code =? 0 then k
  else if is_break then release_key hid_code k
  else press_key hid_code k.

(** ** Public interface *)

(** [ps2_init] overwrites every global; [clk] is the level read from the
    clock pin. *)
Definition ps2_init (clk : bool) (st : ps2_state) : ps2_state :=
  {| kbd := {| g_modifiers := 0; g_keys := replicate 6 0;
               g_state_changed := false |};
     frame_bit_index := 0; scancode_byte := 0;
     break_pending := false; extended_pending := false;
     last_clk := clk |}.

(** The data-bit branch: [scancode_byte >>= 1; if (data_bit) scancode_byte |= 0x80]. *)
Definition shift_in (data_bit : bool) (b : Z) : Z :=
  let b := u8 (Z.shiftr b 1) in
  if data_bit then u8 (Z.lor b 0x80) else b.

(** The stop-bit branch up to the reset of the accumulator. *)
Definition stop_bit (st : ps2_state) : ps2_state :=
  let code := scancode_byte st in
  let st :=
    if code =? 0xF0 then
      {| kbd := kbd st; frame_bit_index := frame_bit_index st;
         scancode_byte := scancode_byte st;
         break_pending := true; extended_pending := extended_pending st;
         last_clk := last_clk st |}
    else if code =? 0xE0 then
      {| kbd := kbd st; frame_bit_index := frame_bit_index st;
         scancode_byte := scancode_byte st;
         break_pending := break_pending st; extended_pending := true;
         last_clk := last_clk st |}
    else
      {| kbd := handle_scancode code (break_pending st) (extended_pending st) (kbd st);
         frame_bit_index := frame_bit_index st;
         scancode_byte := scancode_byte st;
         break_pending := false; extended_pending := false;
         last_clk := last_clk st |} in
  {| kbd := kbd st; frame_bit_index := 0; scancode_byte := 0;
     break_pending := break_pending st; extended_pending := extended_pending st;
     last_clk := last_clk st |}.

(** What [ps2_task] does once it has seen a falling edge, up to the final
    [last_clk = clk]; [data_bit] is the level read from the data pin. *)
Definition falling_edge (data_bit : bool) (st : ps2_state) : ps2_state :=
  let i := frame_bit_index st in
  let bump (st : ps2_state) : ps2_state :=
    {| kbd := kbd st; frame_bit_index := u8 (frame_bit_index st + 1);
       scancode_byte := scancode_byte st;
       break_pending := break_pending st;
       extended_pending := extended_pending st;
       last_clk := last_clk st |} in
  if i =? 0 then bump st
  else if (1 <=? i) && (i <=? 8) then
    bump {| kbd := kbd st; frame_bit_index := frame_bit_index st;
            scancode_byte := shift_in data_bit (scancode_byte st);
            break_pending := break_pending st;
            extended_pending := extended_pending st;
            last_clk := last_clk st |}
  else if i =? 9 then bump st
  else if i =? 10 then stop_bit st
  else bump st.

Definition set_last_clk (clk : bool) (st : ps2_state) : ps2_state :=
  {| kbd := kbd st; frame_bit_index := frame_bit_index st;
     scancode_byte := scancode_byte st;
     break_pending := break_pending st;
     extended_pending := extended_pending st;
     last_clk := clk |}.

(** One call of [ps2_task]; [clk] and [data] are the levels of the two
    pins during the call (the data pin is read on a falling edge only). *)
Definition ps2_task (clk data : bool) (st : ps2_state) : ps2_state :=
  if last_clk st && negb clk then set_last_clk clk (falling_edge data st)
  else set_last_clk clk st.

(** The four accessors.  Each returns its result together with the state
    it leaves behind; [ps2_get_keys], which hands out a pointer to
    [g_keys], returns the array as it stands at the call. *)
Definition ps2_get_modifiers (st : ps2_state) : Z * ps2_state :=
  (g_modifiers (kbd st), st).

Definition ps2_get_keys (st : ps2_state) : list Z * ps2_state :=
  (g_keys (kbd st), st).

Definition ps2_state_changed (st : ps2_state) : bool * ps2_state :=
  (g_state_changed (kbd st), st).

Definition ps2_clear_changed (st : ps2_state) : ps2_state :=
  {| kbd := {| g_modifiers := g_modifiers (kbd st);
               g_keys := g_keys (kbd st);
               g_state_changed := false |};
     frame_bit_index := frame_bit_index st;
     scancode_byte := scancode_byte st;
     break_pending := break_pending st;
     extended_pending := extended_pending st;
     last_clk := last_clk st |}.

(** ** Vocabulary of the statements *)

(** The table lookup at the head of [handle_scancode]. *)
Definition translate (code : Z) (is_extended : bool) : Z :=
  if is_extended then extended_scancode_to_hid code else scancode_to_hid code.

(** The value an identity is stored under in [g_keys]: the Caps Lock
    sentinel is remapped, everything else is stored as it is. *)
Definition key_identity (hid_code : Z) : Z :=
  if hid_code =? 0xFC then HID_KEY_CAPS_LOCK else hid_code.

(** An identity is tracked when its modifier bit is set or, for a key
    that is not a modifier, when it sits in [g_keys]. *)
Definition key_held (hid_code : Z) (k : kbd_state) : Prop :=
  if get_modifier_mask hid_code =? 0
  then key_identity hid_code ∈ g_keys k
  else Z.land (g_modifiers k) (get_modifier_mask hid_code) ≠ 0.

(** An ordinary key: mapped, not a modifier, not the Caps Lock sentinel. *)
Definition ordinary (hid_code : Z) : Prop :=
  hid_code ≠ 0 ∧ get_modifier_mask hid_code = 0 ∧ hid_code ≠ 0xFC.

(** Number of occupied slots. *)
Definition occupied (keys : list Z) : nat :=
  length (filter (λ x, x ≠ 0) keys).

(** A make code: a scancode and whether it came with the extended prefix. *)
Definition make_code : Type := Z * bool.

Definition dispatch_press (k : kbd_state) (p : make_code) : kbd_state :=
  handle_scancode p.1 false p.2 k.

Definition press_all (ps : list make_code) (k : kbd_state) : kbd_state :=
  foldl dispatch_press k ps.

(** The identities a run of make codes translates to. *)
Definition identities (ps : list make_code) : list Z :=
  (λ p : make_code, translate p.1 p.2) <$> ps.

(** A link sample: the clock and data levels seen by one call. *)
Definition sample : Type := bool * bool.

Definition run_task (samples : list sample) (st : ps2_state) : ps2_state :=
  foldl (λ s cd, ps2_task cd.1 cd.2 s) st samples.

Definition run_edges (bits : list bool) (st : ps2_state) : ps2_state :=
  foldl (λ s d, falling_edge d s) st bits.

(** The data levels at the falling edges of a run of samples, [lc] being
    the clock level before the first one. *)
Fixpoint edges_of (lc : bool) (samples : list sample) : list bool :=
  match samples with
  | [] => []
  | (clk, data) :: rest =>
      if lc && negb clk then data :: edges_of clk rest else edges_of clk rest
  end.

(** The clock level after a run of samples. *)
Definition last_clock (lc : bool) (samples : list sample) : bool :=
  foldl (λ _ cd, cd.1) lc samples.

(** Eight data bits, least significant first, as a byte. *)
Fixpoint byte_of_bits (ds : list bool) : Z :=
  match ds with
  | [] => 0
  | d :: rest => Z.b2z d + 2 * byte_of_bits rest
  end.

(** The eight data bits of a byte in the order the link carries them. *)
Definition bits_of_byte (b : Z) : list bool :=
  map (λ i : nat, Z.testbit b (Z.of_nat i)) (seq 0 8).

(** The eleven bits of a frame. *)
Definition frame (start : bool) (ds : list bool) (parity stop : bool) : list bool :=
  start :: ds ++ [parity; stop].

Definition set_scancode_byte (b : Z) (st : ps2_state) : ps2_state :=
  {| kbd := kbd st; frame_bit_index := frame_bit_index st;
     scancode_byte := b;
     break_pending := break_pending st;
     extended_pending := extended_pending st;
     last_clk := last_clk st |}.

(** The byte a frame of eleven bits carries: its bits 1 to 8, the first
    of them lowest. *)
Definition frame_byte (bits : list bool) : Z :=
  byte_of_bits (take 8 (drop 1 bits)).

(** A run of bits clocked out the simplest way: for each bit one sample
    with the clock high and one with the clock low, the data line holding
    the bit throughout. *)
Definition clocked (bits : list bool) : list sample :=
  bits ≫= λ d, [(true, d); (false, d)].

(** Fed to the decoder in state [st], the samples make up one complete
    frame whose data bits are those of the byte [b]: they hold eleven
    falling edges, and the data levels at edges 1 to 8 are the bits of
    [b], lowest first. *)
Definition carries (st : ps2_state) (samples : list sample) (b : Z) : Prop :=
  ∃ start parity stop : bool,
    edges_of (last_clk st) samples = frame start (bits_of_byte b) parity stop.

(** A state with the frame accumulator set to bit [i] and byte [b]. *)
Definition with_frame (i b : Z) (st : ps2_state) : ps2_state :=
  {| kbd := kbd st; frame_bit_index := i; scancode_byte := b;
     break_pending := break_pending st;
     extended_pending := extended_pending st;
     last_clk := last_clk st |}.

(** The stop-bit branch run on a completed byte [code]. *)
Definition deliver (code : Z) (st : ps2_state) : ps2_state :=
  stop_bit (set_scancode_byte code st).

(** The calls the main loop makes once [ps2_init] has run. *)
Inductive op : Type :=
  | OpTask (clk data : bool)
  | OpGetModifiers
  | OpGetKeys
  | OpStateChanged
  | OpClearChanged.

Definition exec (o : op) (st : ps2_state) : ps2_state :=
  match o with
  | OpTask clk data => ps2_task clk data st
  | OpGetModifiers => (ps2_get_modifiers st).2
  | OpGetKeys => (ps2_get_keys st).2
  | OpStateChanged => (ps2_state_changed st).2
  | OpClearChanged => ps2_clear_changed st
  end.

Definition run_ops (os : list op) (st : ps2_state) : ps2_state :=
  foldl (λ s o, exec o s) st os.

(** The state of the frame decoder proper, that is everything but the
    keyboard state. *)
Definition decoder_fields (st : ps2_state) : Z * Z * bool * bool * bool :=
  (frame_bit_index st, scancode_byte st, break_pending st,
   extended_pending st, last_clk st).

(** ** Vocabulary of the further properties *)

(** No identity sits in two slots. *)
Definition keys_distinct (keys : list Z) : Prop :=
  ∀ (i j : nat) (x : Z), keys !! i = Some x → keys !! j = Some x → x ≠ 0 → i = j.

(** The slots hold 0 or an ordinary HID keycode, the largest of which is
    [HID_KEY_APPLICATION]. *)
Definition slots_ordinary (keys : list Z) : Prop :=
  Forall (λ x, 0 <= x <= HID_KEY_APPLICATION) keys.

(** One frame on the wire: its start bit, its byte, its parity and stop
    bits. *)
Record wire_frame : Type := WireFrame {
  wire_start : bool;
  wire_byte : Z;
  wire_parity : bool;
  wire_stop : bool
}.

Definition wire_bits (f : wire_frame) : list bool :=
  frame (wire_start f) (bits_of_byte (wire_byte f)) (wire_parity f) (wire_stop f).

(** The decoder seen byte by byte: the stop-bit branch run on each byte
    in turn. *)
Definition run_bytes (bytes : list Z) (st : ps2_state) : ps2_state :=
  foldl (λ s b, deliver b s) st bytes.

(** The bytes a keyboard sends for a key going down and for a key going
    up. *)
Definition make_bytes (code : Z) (is_extended : bool) : list Z :=
  if is_extended then [0xE0; code] else [code].

Definition break_bytes (code : Z) (is_extended : bool) : list Z :=
  if is_extended then [0xE0; 0xF0; code] else [0xF0; code].

(** What every state of the tracker satisfies: the C types, ordinary
    keycodes only in the slots, no identity in two slots. *)
Definition kbd_inv (k : kbd_state) : Prop :=
  kbd_wf k ∧ slots_ordinary (g_keys k) ∧ keys_distinct (g_keys k).

(** * The main program (main.c)

    The program's own statics join the decoder's in one record.  What it
    reads from the board and the USB stack ([board_millis],
    [tud_suspended], [tud_hid_ready], [tud_mounted]) becomes an argument
    of the function that reads it; what it asks of them
    ([board_led_write], [tud_hid_keyboard_report]) is returned as a list
    of events. *)

(** Conversion to [uint32_t]. *)
Definition u32 (z : Z) : Z := z mod 4294967296.

Definition is_u32 (z : Z) : Prop := 0 <= z < 4294967296.

Definition BLINK_NOT_MOUNTED : Z := 250.
Definition BLINK_MOUNTED : Z := 1000.
Definition BLINK_SUSPENDED : Z := 2500.

Inductive event : Type :=
  | BoardLedWrite (on : bool)
  | HidKeyboardReport (report_id modifier : Z) (keycode : list Z).

(** [blink_interval_ms], the [start_ms] and [led_state] of
    [led_blinking_task], the [start_ms] of [hid_task], and the statics of
    ps2.c. *)
Record main_state : Type := MainState {
  ps2 : ps2_state;
  blink_interval_ms : Z;
  led_start_ms : Z;
  led_state : bool;
  hid_start_ms : Z
}.

Definition set_ps2 (st : ps2_state) (s : main_state) : main_state :=
  {| ps2 := st; blink_interval_ms := blink_interval_ms s;
     led_start_ms := led_start_ms s; led_state := led_state s;
     hid_start_ms := hid_start_ms s |}.

Definition set_blink_interval_ms (ms : Z) (s : main_state) : main_state :=
  {| ps2 := ps2 s; blink_interval_ms := ms;
     led_start_ms := led_start_ms s; led_state := led_state s;
     hid_start_ms := hid_start_ms s |}.

(** The state [main] enters its loop with: the static initialisers, then
    [ps2_init]. *)
Definition main_init (clk : bool) : main_state :=
  {| ps2 := ps2_init clk boot_state; blink_interval_ms := BLINK_NOT_MOUNTED;
     led_start_ms := 0; led_state := false; hid_start_ms := 0 |}.

(** ** Device callbacks *)

Definition tud_mount_cb (s : main_state) : main_state :=
  set_blink_interval_ms BLINK_MOUNTED s.

Definition tud_umount_cb (s : main_state) : main_state :=
  set_blink_interval_ms BLINK_NOT_MOUNTED s.

Definition tud_suspend_cb (remote_wakeup_en : bool) (s : main_state) : main_state :=
  set_blink_interval_ms BLINK_SUSPENDED s.

(** [mounted] is what [tud_mounted] returns. *)
Definition tud_resume_cb (mounted : bool) (s : main_state) : main_state :=
  set_blink_interval_ms (if mounted then BLINK_MOUNTED else BLINK_NOT_MOUNTED) s.

(** ** USB HID *)

(** [hid_ready] is what [tud_hid_ready] returns. *)
Definition send_hid_report (hid_ready : bool) (st : ps2_state) : ps2_state * list event :=
  if negb hid_ready then (st, [])
  else
    let '(modifiers, st) := ps2_get_modifiers st in
    let '(keys, st) := ps2_get_keys st in
    (st, [HidKeyboardReport 0 modifiers keys]).

(** [millis] is what [board_millis] returns, [suspended] what
    [tud_suspended] returns. *)
Definition hid_task (millis : Z) (suspended hid_ready : bool) (s : main_state)
    : main_state * list event :=
  let interval_ms := 10 in
  if u32 (millis - hid_start_ms s) <? interval_ms then (s, [])
  else
    let s :=
      {| ps2 := ps2 s; blink_interval_ms := blink_interval_ms s;
         led_start_ms := led_start_ms s; led_state := led_state s;
         hid_start_ms := u32 (hid_start_ms s + interval_ms) |} in
    if suspended then (s, [])
    else
      let '(changed, st) := ps2_state_changed (ps2 s) in
      if changed then
        let '(st, events) := send_hid_report hid_ready st in
        (set_ps2 (ps2_clear_changed st) s, events)
      else (set_ps2 st s, []).

Definition tud_hid_report_complete_cb (s : main_state) : main_state := s.

(** [memcpy (dst + off, src, n)] on byte arrays.  A source shorter than
    [n] bytes ends the copy (C would read past it); a byte that falls
    past the end of the destination is not stored (C would write past
    it). *)
Fixpoint memcpy (dst : list Z) (off : nat) (src : list Z) (n : nat) : list Z :=
  match n, src with
  | S n', x :: src' => memcpy (<[off := x]> dst) (S off) src' n'
  | _, _ => dst
  end.

Section Tusb.

(** Constants of the TinyUSB headers, which are not part of the
    repository. *)
Variables HID_REPORT_TYPE_INPUT HID_REPORT_TYPE_OUTPUT KEYBOARD_LED_CAPSLOCK : Z.

(** Returns the length it reports, the buffer as it leaves it, and the
    decoder state. *)
Definition tud_hid_get_report_cb (report_type reqlen : Z) (buffer : list Z)
    (st : ps2_state) : Z * list Z * ps2_state :=
  if report_type =? HID_REPORT_TYPE_INPUT then
    if 8 <=? reqlen then
      let '(modifiers, st) := ps2_get_modifiers st in
      let buffer := <[0%nat := modifiers]> buffer in
      let buffer := <[1%nat := 0]> buffer in
      let '(keys, st) := ps2_get_keys st in
      let buffer := memcpy buffer 2 keys 6 in
      (8, buffer, st)
    else (0, buffer, st)
  else (0, buffer, st).

(** [buffer\[0\]] is read once [bufsize] is known to be at least 1; an
    empty [buffer] then has no such byte (C would read past it) and the
    model stops there. *)
Definition tud_hid_set_report_cb (report_type bufsize : Z) (buffer : list Z)
    (s : main_state) : main_state * list event :=
  if report_type =? HID_REPORT_TYPE_OUTPUT then
    if bufsize <? 1 then (s, [])
    else
      match buffer with
      | [] => (s, [])
      | kbd_leds :: _ =>
          if negb (Z.land kbd_leds KEYBOARD_LED_CAPSLOCK =? 0) then
            (set_blink_interval_ms 0 s, [BoardLedWrite true])
          else
            (set_blink_interval_ms BLINK_MOUNTED s, [BoardLedWrite false])
      end
  else (s, []).

End Tusb.

(** Whether the 10 ms of [hid_task] have passed at time [millis]. *)
Definition hid_due (millis : Z) (s : main_state) : bool :=
  negb (u32 (millis - hid_start_ms s) <? 10).

(** A run of calls of [hid_task], each with the time and the two answers
    of the USB stack it reads. *)
Fixpoint run_hid (inputs : list (Z * bool * bool)) (s : main_state)
    : main_state * list event :=
  match inputs with
  | [] => (s, [])
  | (millis, suspended, hid_ready) :: inputs =>
      let '(s, events) := hid_task millis suspended hid_ready s in
      let '(s, events') := run_hid inputs s in
      (s, events ++ events')
  end.

(** ** Blinking task *)

Definition led_blinking_task (millis : Z) (s : main_state) : main_state * list event :=
  if blink_interval_ms s =? 0 then (s, [])
  else if u32 (millis - led_start_ms s) <? blink_interval_ms s then (s, [])
  else
    ({| ps2 := ps2 s; blink_interval_ms := blink_interval_ms s;
        led_start_ms := u32 (led_start_ms s + blink_interval_ms s);
        led_state := negb (led_state s);
        hid_start_ms := hid_start_ms s |},
     [BoardLedWrite (led_state s)]).

(** ** The main loop *)

(** What one pass of the loop reads: the time at the call of
    [led_blinking_task], the two lines at the call of [ps2_task], and the
    time and the state of the USB stack at the call of [hid_task]. *)
Record loop_input : Type := LoopInput {
  in_led_millis : Z;
  in_clk : bool;
  in_data : bool;
  in_hid_millis : Z;
  in_suspended : bool;
  in_hid_ready : bool
}.

(** One pass of the loop of [main] after [tud_task]: [led_blinking_task],
    [ps2_task], [hid_task]. *)
Definition loop_pass (i : loop_input) (s : main_state) : main_state * list event :=
  let '(s, led_events) := led_blinking_task (in_led_millis i) s in
  let s := set_ps2 (ps2_task (in_clk i) (in_data i) (ps2 s)) s in
  let '(s, hid_events) := hid_task (in_hid_millis i) (in_suspended i) (in_hid_ready i) s in
  (s, led_events ++ hid_events).

(** The callbacks of this file that act on its statics or on the board;
    [tud_task] may call any of them.  [tud_hid_get_report_cb] only reads
    the state and is not among them. *)
Inductive callback : Type :=
  | CbMount
  | CbUmount
  | CbSuspend (remote_wakeup_en : bool)
  | CbResume (mounted : bool)
  | CbReportComplete
  | CbSetReport (report_type bufsize : Z) (buffer : list Z).

Definition run_callback (HID_REPORT_TYPE_OUTPUT KEYBOARD_LED_CAPSLOCK : Z)
    (c : callback) (s : main_state) : main_state * list event :=
  match c with
  | CbMount => (tud_mount_cb s, [])
  | CbUmount => (tud_umount_cb s, [])
  | CbSuspend remote_wakeup_en => (tud_suspend_cb remote_wakeup_en s, [])
  | CbResume mounted => (tud_resume_cb mounted s, [])
  | CbReportComplete => (tud_hid_report_complete_cb s, [])
  | CbSetReport report_type bufsize buffer =>
      tud_hid_set_report_cb HID_REPORT_TYPE_OUTPUT KEYBOARD_LED_CAPSLOCK
        report_type bufsize buffer s
  end.

(** A step of the running program: a callback made from [tud_task], or
    the rest of a pass of the loop. *)
Inductive step : Type :=
  | StepCallback (c : callback)
  | StepPass (i : loop_input).

Definition run_step (HID_REPORT_TYPE_OUTPUT KEYBOARD_LED_CAPSLOCK : Z)
    (x : step) (s : main_state) : main_state * list event :=
  match x with
  | StepCallback c => run_callback HID_REPORT_TYPE_OUTPUT KEYBOARD_LED_CAPSLOCK c s
  | StepPass i => loop_pass i s
  end.

(** A run of steps, with the events in the order they are raised. *)
Fixpoint run_steps (HID_REPORT_TYPE_OUTPUT KEYBOARD_LED_CAPSLOCK : Z)
    (xs : list step) (s : main_state) : main_state * list event :=
  match xs with
  | [] => (s, [])
  | x :: xs =>
      let '(s, events) := run_step HID_REPORT_TYPE_OUTPUT KEYBOARD_LED_CAPSLOCK x s in
      let '(s, events') := run_steps HID_REPORT_TYPE_OUTPUT KEYBOARD_LED_CAPSLOCK xs s in
      (s, events ++ events')
  end.

(** A run of calls of [led_blinking_task] at the given times. *)
Fixpoint run_led (times : list Z) (s : main_state) : main_state * list event :=
  match times with
  | [] => (s, [])
  | t :: times =>
      let '(s, events) := led_blinking_task t s in
      let '(s, events') := run_led times s in
      (s, events ++ events')
  end.

(** A keyboard report as the host expects it: report id 0, a modifiers
    byte, six slots that hold 0 or an ordinary keycode, no keycode in two
    slots.  Other events pass. *)
Definition report_well_formed (e : event) : Prop :=
  match e with
  | BoardLedWrite _ => True
  | HidKeyboardReport report_id modifier keycode =>
      report_id = 0 ∧ is_u8 modifier ∧ length keycode = 6%nat ∧
      slots_ordinary keycode ∧ keys_distinct keycode
  end.

(** * Properties *)

(** ** Bytes and bit operations *)

Section Bytes.

Lemma u8_testbit (z n : Z) :
  0 <= n → Z.testbit (u8 z) n = (n <? 8) && Z.testbit z n.
Proof.
  intros Hn. unfold u8. change 256 with (2 ^ 8).
  destruct (Z.ltb_spec n 8) as [Hlt | Hge]; cbn [andb].
  - apply Z.mod_pow2_bits_low. lia.
  - apply Z.mod_pow2_bits_high. lia.
Qed.

Lemma u8_small (z : Z) : is_u8 z → u8 z = z.
Proof. intros Hz. apply Z.mod_small. exact Hz. Qed.

Lemma u8_is_u8 (z : Z) : is_u8 (u8 z).
Proof. unfold is_u8, u8. apply Z.mod_pos_bound. lia. Qed.

Lemma is_u8_high_bits (z n : Z) : is_u8 z → 8 <= n → Z.testbit z n = false.
Proof.
  intros Hz Hn. rewrite <- (u8_small z Hz), u8_testbit by lia.
  destruct (Z.ltb_spec n 8); [lia | reflexivity].
Qed.

End Bytes.

(** Equality of two integers, bit by bit, with [u8] unfolded into its
    bound on the bit position. *)
Ltac byte_bits n :=
  apply Z.bits_inj'; intros n ?;
  repeat first
    [ rewrite u8_testbit by lia
    | rewrite Z.land_spec
    | rewrite Z.lor_spec
    | rewrite Z.lnot_spec by lia
    | rewrite Z.bits_0 ].

Section ModifierBits.

Variables m mask : Z.

Lemma set_bits_visible : is_u8 mask → Z.land (u8 (Z.lor m mask)) mask = mask.
Proof.
  intros Hk. byte_bits n.
  destruct (Z.ltb_spec n 8); cbn [andb].
  - destruct (Z.testbit m n), (Z.testbit mask n); reflexivity.
  - rewrite (is_u8_high_bits mask n) by assumption. reflexivity.
Qed.

Lemma cleared_bits_gone : Z.land (u8 (Z.land m (Z.lnot mask))) mask = 0.
Proof.
  byte_bits n.
  destruct (n <? 8), (Z.testbit m n), (Z.testbit mask n); reflexivity.
Qed.

Lemma set_then_clear :
  is_u8 m → Z.land m mask = 0 →
  u8 (Z.land (u8 (Z.lor m mask)) (Z.lnot mask)) = m.
Proof.
  intros Hm Hdisj. byte_bits n.
  assert (Hbit : Z.testbit m n && Z.testbit mask n = false)
    by (rewrite <- Z.land_spec, Hdisj; apply Z.bits_0).
  destruct (Z.ltb_spec n 8); cbn [andb].
  - destruct (Z.testbit m n), (Z.testbit mask n); cbn in *; congruence.
  - symmetry. apply is_u8_high_bits; assumption.
Qed.

End ModifierBits.

Lemma get_modifier_mask_u8 (hid_code : Z) : is_u8 (get_modifier_mask hid_code).
Proof.
  unfold get_modifier_mask, is_u8.
  repeat match goal with
         | |- context [match ?x with _ => _ end] => destruct x
         end; cbv; intuition congruence.
Qed.

(** ** The scan over [g_keys] *)

Section Scan.

Variables (keys : list Z) (v : Z).

Lemma scan_keys_Some (i n j : nat) :
  scan_keys keys v i n = Some j →
  (i ≤ j < i + n)%nat ∧ keys !! j = Some v ∧
  ∀ j', (i ≤ j' < j)%nat → keys !! j' ≠ Some v.
Proof.
  revert i. induction n as [| n IH]; intros i; cbn [scan_keys].
  - discriminate.
  - destruct (keys !! i) as [k |] eqn:Hi.
    + destruct (Z.eqb_spec k v) as [-> | Hne].
      * intros [= <-]. repeat split; [lia .. | assumption | intros j' ?; lia].
      * intros Hs. destruct (IH _ Hs) as (Hr & Hj & Hfirst).
        repeat split; [lia .. | assumption |].
        intros j' Hj'. destruct (decide (j' = i)) as [-> | ?].
        -- rewrite Hi. congruence.
        -- apply Hfirst. lia.
    + intros Hs. destruct (IH _ Hs) as (Hr & Hj & Hfirst).
      repeat split; [lia .. | assumption |].
      intros j' Hj'. destruct (decide (j' = i)) as [-> | ?].
      * rewrite Hi. discriminate.
      * apply Hfirst. lia.
Qed.

Lemma scan_keys_None (i n : nat) :
  scan_keys keys v i n = None →
  ∀ j, (i ≤ j < i + n)%nat → keys !! j ≠ Some v.
Proof.
  revert i. induction n as [| n IH]; intros i; cbn [scan_keys].
  - intros _ j ?. lia.
  - destruct (keys !! i) as [k |] eqn:Hi.
    + destruct (Z.eqb_spec k v) as [-> | Hne]; [discriminate |].
      intros Hs j Hj. destruct (decide (j = i)) as [-> | ?].
      * rewrite Hi. congruence.
      * apply (IH _ Hs). lia.
    + intros Hs j Hj. destruct (decide (j = i)) as [-> | ?].
      * rewrite Hi. discriminate.
      * apply (IH _ Hs). lia.
Qed.

(** The scan finds the first slot that holds [v], if there is one in
    range. *)
Lemma scan_keys_first (i n j : nat) :
  (i ≤ j < i + n)%nat → keys !! j = Some v →
  (∀ j', (i ≤ j' < j)%nat → keys !! j' ≠ Some v) →
  scan_keys keys v i n = Some j.
Proof.
  intros Hr Hj Hfirst.
  destruct (scan_keys keys v i n) as [j0 |] eqn:Hs.
  - destruct (scan_keys_Some _ _ _ Hs) as (Hr0 & Hj0 & Hfirst0).
    f_equal. destruct (lt_eq_lt_dec j0 j) as [[Hlt | ->] | Hgt].
    + exfalso. apply (Hfirst j0); [lia | assumption].
    + reflexivity.
    + exfalso. apply (Hfirst0 j); [lia | assumption].
  - exfalso. apply (scan_keys_None _ _ Hs j Hr Hj).
Qed.

Lemma find_key_Some (j : nat) :
  find_key keys v = Some j →
  (j < 6)%nat ∧ keys !! j = Some v ∧ ∀ j', (j' < j)%nat → keys !! j' ≠ Some v.
Proof.
  intros Hs. destruct (scan_keys_Some _ _ _ Hs) as (Hr & Hj & Hfirst).
  repeat split; [lia | assumption | intros j' ?; apply Hfirst; lia].
Qed.

Lemma find_key_elem (j : nat) : find_key keys v = Some j → v ∈ keys.
Proof.
  intros Hs. apply find_key_Some in Hs as (_ & Hj & _).
  apply list_elem_of_lookup. eauto.
Qed.

Lemma find_key_None : length keys = 6%nat → find_key keys v = None → v ∉ keys.
Proof.
  intros Hlen Hs Hin. apply list_elem_of_lookup in Hin as [j Hj].
  apply (scan_keys_None _ _ Hs j); [| assumption].
  apply lookup_lt_Some in Hj. lia.
Qed.

Lemma find_key_absent : v ∉ keys → find_key keys v = None.
Proof.
  intros Hnin. destruct (find_key keys v) as [j |] eqn:Hs; [| reflexivity].
  exfalso. apply Hnin. exact (find_key_elem _ Hs).
Qed.

Lemma find_key_present (j : nat) :
  (j < 6)%nat → keys !! j = Some v → is_Some (find_key keys v).
Proof.
  intros Hj Hl. destruct (find_key keys v) as [j0 |] eqn:Hs; [eauto |].
  exfalso. apply (scan_keys_None _ _ Hs j); [lia | assumption].
Qed.

End Scan.

(** ** The tracker, case by case *)

Section Tracker.

Variables (hid_code : Z) (k : kbd_state).

Lemma press_key_modifier :
  get_modifier_mask hid_code ≠ 0 →
  press_key hid_code k =
    if Z.land (g_modifiers k) (get_modifier_mask hid_code) =? 0 then
      {| g_modifiers := u8 (Z.lor (g_modifiers k) (get_modifier_mask hid_code));
         g_keys := g_keys k; g_state_changed := true |}
    else k.
Proof.
  intros Hmask. unfold press_key.
  destruct (Z.eqb_spec hid_code 0) as [-> | _]; [contradiction Hmask; reflexivity |].
  cbv zeta. destruct (Z.eqb_spec (get_modifier_mask hid_code) 0); [contradiction |].
  reflexivity.
Qed.

Lemma release_key_modifier :
  get_modifier_mask hid_code ≠ 0 →
  release_key hid_code k =
    if Z.land (g_modifiers k) (get_modifier_mask hid_code) =? 0 then k
    else
      {| g_modifiers := u8 (Z.land (g_modifiers k) (Z.lnot (get_modifier_mask hid_code)));
         g_keys := g_keys k; g_state_changed := true |}.
Proof.
  intros Hmask. unfold release_key.
  destruct (Z.eqb_spec hid_code 0) as [-> | _]; [contradiction Hmask; reflexivity |].
  cbv zeta. destruct (Z.eqb_spec (get_modifier_mask hid_code) 0); [contradiction |].
  cbn [negb]. destruct (Z.land _ _ =? 0); reflexivity.
Qed.

Lemma press_key_plain :
  hid_code ≠ 0 → get_modifier_mask hid_code = 0 →
  press_key hid_code k =
    match find_key (g_keys k) (key_identity hid_code) with
    | Some _ => k
    | None =>
        match find_key (g_keys k) 0 with
        | Some i =>
            {| g_modifiers := g_modifiers k;
               g_keys := <[i := key_identity hid_code]> (g_keys k);
               g_state_changed := true |}
        | None => k
        end
    end.
Proof.
  intros Hnz Hmask. unfold press_key, key_identity.
  destruct (Z.eqb_spec hid_code 0); [contradiction |].
  cbv zeta. rewrite Hmask. reflexivity.
Qed.

Lemma release_key_plain :
  hid_code ≠ 0 → get_modifier_mask hid_code = 0 →
  release_key hid_code k =
    match find_key (g_keys k) (key_identity hid_code) with
    | Some i =>
        {| g_modifiers := g_modifiers k;
           g_keys := <[i := 0]> (g_keys k);
           g_state_changed := true |}
    | None => k
    end.
Proof.
  intros Hnz Hmask. unfold release_key, key_identity.
  destruct (Z.eqb_spec hid_code 0); [contradiction |].
  cbv zeta. rewrite Hmask. reflexivity.
Qed.

Lemma key_identity_nonzero : hid_code ≠ 0 → key_identity hid_code ≠ 0.
Proof.
  intros Hnz. unfold key_identity.
  destruct (Z.eqb_spec hid_code 0xFC); [discriminate | assumption].
Qed.

(** Either function hands back the state it was given or one with the
    changed flag set. *)
Lemma press_key_same_or_changed :
  press_key hid_code k = k ∨ g_state_changed (press_key hid_code k) = true.
Proof.
  unfold press_key. destruct (hid_code =? 0); [by left |]. cbv zeta.
  destruct (negb _).
  - destruct (_ =? 0); [by right | by left].
  - destruct (find_key _ _); [by left |].
    destruct (find_key _ _); [by right | by left].
Qed.

Lemma release_key_same_or_changed :
  release_key hid_code k = k ∨ g_state_changed (release_key hid_code k) = true.
Proof.
  unfold release_key. destruct (hid_code =? 0); [by left |]. cbv zeta.
  destruct (negb _).
  - destruct (negb _); [by right | by left].
  - destruct (find_key _ _); [by right | by left].
Qed.

End Tracker.

Lemma handle_scancode_translate (code : Z) (is_break is_extended : bool) (k : kbd_state) :
  handle_scancode code is_break is_extended k =
    if translate code is_extended =? 0 then k
    else if is_break then release_key (translate code is_extended) k
    else press_key (translate code is_extended) k.
Proof. reflexivity. Qed.

Lemma handle_scancode_same_or_changed code is_break is_extended k :
  handle_scancode code is_break is_extended k = k ∨
  g_state_changed (handle_scancode code is_break is_extended k) = true.
Proof.
  rewrite handle_scancode_translate.
  destruct (_ =? 0); [by left |].
  destruct is_break;
    [apply release_key_same_or_changed | apply press_key_same_or_changed].
Qed.

Lemma handle_scancode_press code is_extended k :
  translate code is_extended ≠ 0 →
  handle_scancode code false is_extended k = press_key (translate code is_extended) k.
Proof.
  intros Hmapped. rewrite handle_scancode_translate.
  destruct (Z.eqb_spec (translate code is_extended) 0); [contradiction | reflexivity].
Qed.

Lemma handle_scancode_release code is_extended k :
  translate code is_extended ≠ 0 →
  handle_scancode code true is_extended k = release_key (translate code is_extended) k.
Proof.
  intros Hmapped. rewrite handle_scancode_translate.
  destruct (Z.eqb_spec (translate code is_extended) 0); [contradiction | reflexivity].
Qed.

Lemma handle_scancode_unmapped code is_break is_extended k :
  translate code is_extended = 0 →
  handle_scancode code is_break is_extended k = k.
Proof. intros H0. rewrite handle_scancode_translate, H0. reflexivity. Qed.

(** Well-formedness of a concrete keyboard state. *)
Ltac kbd_wf_tac :=
  unfold kbd_wf, is_u8; cbn;
  repeat first [split | apply List.Forall_cons | apply List.Forall_nil]; lia.

(** ** Unknown scancodes *)

(** C9.  A scancode whose entry in the table that [handle_scancode]
    consults (the extended table when [is_extended], the plain table
    otherwise) is 0 is dropped: the modifiers, the keys and the changed
    flag come back as they were, for a make and for a break code alike.
    The function is total, so nothing is signalled. *)
Theorem unknown_scancode_is_noop (code : Z) (is_break is_extended : bool) (k : kbd_state) :
  (if is_extended then extended_scancode_to_hid code else scancode_to_hid code) = 0 →
  handle_scancode code is_break is_extended k = k.
Proof. apply handle_scancode_unmapped. Qed.

Lemma unknown_scancode_is_noop_witness :
  handle_scancode 0x02 false false
    {| g_modifiers := 0x02; g_keys := [0x04; 0; 0; 0; 0; 0]; g_state_changed := false |}
  = {| g_modifiers := 0x02; g_keys := [0x04; 0; 0; 0; 0; 0]; g_state_changed := false |}.
Proof. apply (unknown_scancode_is_noop 0x02 false false). reflexivity. Defined.

(** ** Press followed by release *)

Lemma find_key_after_store (keys : list Z) (v : Z) (i : nat) :
  v ∉ keys → find_key keys 0 = Some i → find_key (<[i := v]> keys) v = Some i.
Proof.
  intros Hnin Hfree. apply find_key_Some in Hfree as (Hi & Hslot & _).
  apply scan_keys_first.
  - lia.
  - apply list_lookup_insert_eq. by apply lookup_lt_Some in Hslot.
  - intros j' Hj'. rewrite list_lookup_insert_ne by lia.
    intros Hl. apply Hnin. by apply list_elem_of_lookup_2 in Hl.
Qed.

Lemma press_release_untracked (hid_code : Z) (k : kbd_state) :
  is_u8 (g_modifiers k) → hid_code ≠ 0 → ¬ key_held hid_code k →
  g_keys (release_key hid_code (press_key hid_code k)) = g_keys k ∧
  g_modifiers (release_key hid_code (press_key hid_code k)) = g_modifiers k.
Proof.
  intros Hm Hnz Hfree. unfold key_held in Hfree.
  destruct (Z.eqb_spec (get_modifier_mask hid_code) 0) as [Hplain | Hmod].
  - rewrite press_key_plain by assumption.
    rewrite (find_key_absent _ _ Hfree).
    destruct (find_key (g_keys k) 0) as [i |] eqn:Hslot.
    + rewrite release_key_plain by assumption. cbn [g_keys g_modifiers].
      rewrite (find_key_after_store _ _ _ Hfree Hslot). cbn [g_keys g_modifiers].
      split; [| reflexivity].
      rewrite list_insert_insert_eq. apply list_insert_id.
      by apply find_key_Some in Hslot as (_ & ? & _).
    + rewrite release_key_plain by assumption.
      rewrite (find_key_absent _ _ Hfree). done.
  - assert (Hclear : Z.land (g_modifiers k) (get_modifier_mask hid_code) = 0).
    { destruct (decide (Z.land (g_modifiers k) (get_modifier_mask hid_code) = 0)); tauto. }
    rewrite press_key_modifier, Hclear by assumption. cbn [Z.eqb].
    rewrite release_key_modifier by assumption. cbn [g_modifiers g_keys].
    rewrite set_bits_visible by apply get_modifier_mask_u8.
    destruct (Z.eqb_spec (get_modifier_mask hid_code) 0); [contradiction |].
    cbn [g_modifiers g_keys]. split; [reflexivity |].
    by apply set_then_clear.
Qed.

(** C2, as the code has it.  For a mapped scancode whose identity is not
    tracked yet (its modifier bit is clear or, for any other key, it is
    not in the keys array), a press followed by a release with the same
    extended flag gives back the keys array and the modifiers byte of the
    state before the press. *)
Theorem press_release_round_trip (code : Z) (is_extended : bool) (k : kbd_state) :
  kbd_wf k →
  translate code is_extended ≠ 0 →
  ¬ key_held (translate code is_extended) k →
  let k' := handle_scancode code true is_extended
              (handle_scancode code false is_extended k) in
  g_keys k' = g_keys k ∧ g_modifiers k' = g_modifiers k.
Proof.
  intros (Hm & _ & _) Hmapped Hfree. cbv zeta.
  rewrite handle_scancode_press, handle_scancode_release by assumption.
  by apply press_release_untracked.
Qed.

Lemma press_release_round_trip_witness :
  let k := {| g_modifiers := 0x01; g_keys := [0x05; 0; 0x06; 0; 0; 0];
              g_state_changed := false |} in
  let k' := handle_scancode 0x1C true false (handle_scancode 0x1C false false k) in
  g_keys k' = g_keys k ∧ g_modifiers k' = g_modifiers k.
Proof.
  apply (press_release_round_trip 0x1C false).
  - kbd_wf_tac.
  - discriminate.
  - unfold key_held. cbn. intros Hin.
    repeat (apply elem_of_cons in Hin as [Heq | Hin]; [discriminate Heq |]).
    by apply elem_of_nil in Hin.
Defined.

(** C2 as stated fails: on a state that already holds the key, the press
    does nothing and the release then removes the key. *)
Lemma press_release_round_trip_fails_when_held :
  ¬ (∀ (code : Z) (is_extended : bool) (k : kbd_state),
       kbd_wf k →
       translate code is_extended ≠ 0 →
       let k' := handle_scancode code true is_extended
                   (handle_scancode code false is_extended k) in
       g_keys k' = g_keys k ∧ g_modifiers k' = g_modifiers k).
Proof.
  intros Hall.
  specialize (Hall 0x1C false
    {| g_modifiers := 0; g_keys := [0x04; 0; 0; 0; 0; 0];
       g_state_changed := false |}).
  destruct Hall as [Hkeys _].
  - kbd_wf_tac.
  - discriminate.
  - discriminate Hkeys.
Qed.

(** ** Idempotence *)

Lemma press_key_idempotent (hid_code : Z) (k : kbd_state) :
  press_key hid_code (press_key hid_code k) = press_key hid_code k.
Proof.
  destruct (decide (hid_code = 0)) as [-> | Hnz]; [reflexivity |].
  destruct (decide (get_modifier_mask hid_code = 0)) as [Hplain | Hmod].
  - pose proof (press_key_plain hid_code k Hnz Hplain) as Hk1.
    destruct (find_key (g_keys k) (key_identity hid_code)) as [j |] eqn:Hheld.
    { by rewrite !Hk1. }
    destruct (find_key (g_keys k) 0) as [i |] eqn:Hslot.
    + rewrite !Hk1, press_key_plain by assumption. cbn [g_keys].
      apply find_key_Some in Hslot as (Hi & Hzero & _).
      destruct (find_key_present (<[i := key_identity hid_code]> (g_keys k))
                  (key_identity hid_code) i Hi) as [j ->]; [| reflexivity].
      apply list_lookup_insert_eq. by apply lookup_lt_Some in Hzero.
    + by rewrite !Hk1.
  - pose proof (press_key_modifier hid_code k Hmod) as Hk1.
    destruct (Z.eqb_spec (Z.land (g_modifiers k) (get_modifier_mask hid_code)) 0)
      as [Hclear | Hset].
    + rewrite !Hk1, press_key_modifier by assumption. cbn [g_modifiers].
      rewrite set_bits_visible by apply get_modifier_mask_u8.
      destruct (Z.eqb_spec (get_modifier_mask hid_code) 0); [contradiction | reflexivity].
    + by rewrite !Hk1.
Qed.

Lemma release_key_untracked (hid_code : Z) (k : kbd_state) :
  ¬ key_held hid_code k → release_key hid_code k = k.
Proof.
  intros Hfree. unfold key_held in Hfree.
  destruct (decide (hid_code = 0)) as [-> | Hnz]; [reflexivity |].
  destruct (Z.eqb_spec (get_modifier_mask hid_code) 0) as [Hplain | Hmod].
  - rewrite release_key_plain, (find_key_absent _ _ Hfree) by assumption. reflexivity.
  - rewrite release_key_modifier by assumption.
    destruct (Z.eqb_spec (Z.land (g_modifiers k) (get_modifier_mask hid_code)) 0);
      [reflexivity | contradiction].
Qed.

(** C4.  Of two consecutive press events for one scancode the second
    leaves the whole keyboard state, changed flag included, as the first
    left it; and a release of an identity that is not tracked (not in the
    keys array, or its modifier bit clear) leaves the whole state, changed
    flag included, as it was. *)
Theorem press_and_release_idempotent :
  (∀ (code : Z) (is_extended : bool) (k : kbd_state),
     let k1 := handle_scancode code false is_extended k in
     handle_scancode code false is_extended k1 = k1) ∧
  (∀ (code : Z) (is_extended : bool) (k : kbd_state),
     ¬ key_held (translate code is_extended) k →
     handle_scancode code true is_extended k = k ∧
     g_state_changed (handle_scancode code true is_extended k) = g_state_changed k).
Proof.
  split.
  - intros code is_extended k. cbv zeta. rewrite !handle_scancode_translate.
    destruct (translate code is_extended =? 0); [reflexivity |].
    apply press_key_idempotent.
  - intros code is_extended k Hfree.
    assert (Hsame : handle_scancode code true is_extended k = k).
    { rewrite handle_scancode_translate.
      destruct (translate code is_extended =? 0); [reflexivity |].
      by apply release_key_untracked. }
    by rewrite Hsame.
Qed.

Lemma press_and_release_idempotent_witness :
  let k := {| g_modifiers := 0x02; g_keys := [0x05; 0; 0; 0; 0; 0];
              g_state_changed := false |} in
  (let k1 := handle_scancode 0x1C false false k in
   handle_scancode 0x1C false false k1 = k1) ∧
  (handle_scancode 0x1C true false k = k ∧
   g_state_changed (handle_scancode 0x1C true false k) = g_state_changed k).
Proof.
  cbv zeta. split.
  - apply (proj1 press_and_release_idempotent 0x1C false).
  - apply (proj2 press_and_release_idempotent 0x1C false).
    unfold key_held. cbn. intros Hin.
    repeat (apply elem_of_cons in Hin as [Heq | Hin]; [discriminate Heq |]).
    by apply elem_of_nil in Hin.
Defined.

(** ** Modifiers and keys do not interfere *)

Section Frames.

Variables (hid_code : Z) (k : kbd_state).

Lemma press_key_keeps_keys :
  get_modifier_mask hid_code ≠ 0 → g_keys (press_key hid_code k) = g_keys k.
Proof.
  intros Hmod. rewrite press_key_modifier by assumption.
  destruct (_ =? 0); reflexivity.
Qed.

Lemma release_key_keeps_keys :
  get_modifier_mask hid_code ≠ 0 → g_keys (release_key hid_code k) = g_keys k.
Proof.
  intros Hmod. rewrite release_key_modifier by assumption.
  destruct (_ =? 0); reflexivity.
Qed.

Lemma press_key_keeps_modifiers :
  get_modifier_mask hid_code = 0 → g_modifiers (press_key hid_code k) = g_modifiers k.
Proof.
  intros Hplain. destruct (decide (hid_code = 0)) as [-> | Hnz]; [reflexivity |].
  rewrite press_key_plain by assumption.
  destruct (find_key _ _); [reflexivity |]. destruct (find_key _ _); reflexivity.
Qed.

Lemma release_key_keeps_modifiers :
  get_modifier_mask hid_code = 0 → g_modifiers (release_key hid_code k) = g_modifiers k.
Proof.
  intros Hplain. destruct (decide (hid_code = 0)) as [-> | Hnz]; [reflexivity |].
  rewrite release_key_plain by assumption.
  destruct (find_key _ _); reflexivity.
Qed.

Lemma release_key_clears_bit :
  get_modifier_mask hid_code ≠ 0 →
  Z.land (g_modifiers (release_key hid_code k)) (get_modifier_mask hid_code) = 0.
Proof.
  intros Hmod. rewrite release_key_modifier by assumption.
  destruct (Z.eqb_spec (Z.land (g_modifiers k) (get_modifier_mask hid_code)) 0)
    as [Hclear | _]; [assumption |].
  cbn [g_modifiers]. apply cleared_bits_gone.
Qed.

Lemma press_key_stores :
  length (g_keys k) = 6%nat → hid_code ≠ 0 → get_modifier_mask hid_code = 0 →
  0 ∈ g_keys k ∨ key_identity hid_code ∈ g_keys k →
  key_identity hid_code ∈ g_keys (press_key hid_code k).
Proof.
  intros Hlen Hnz Hplain Hroom. rewrite press_key_plain by assumption.
  destruct (find_key (g_keys k) (key_identity hid_code)) as [j |] eqn:Hheld.
  { by apply find_key_elem in Hheld. }
  destruct (find_key (g_keys k) 0) as [i |] eqn:Hslot; cbn [g_keys].
  - apply find_key_Some in Hslot as (_ & Hzero & _).
    apply (list_elem_of_lookup_2 _ i), list_lookup_insert_eq.
    by apply lookup_lt_Some in Hzero.
  - apply find_key_None in Hheld, Hslot; [| assumption ..]. tauto.
Qed.

End Frames.

(** C7.  A press or release of a modifier leaves the keys array as it
    was, and a press or release of a key that is not a modifier leaves the
    modifiers byte as it was.  In the run "press 0x12 (Left Shift), press
    0x1C (A), release 0x12" the release clears the LeftShift bit and keeps
    the keys array of the state before it, so the A that the second press
    stored (or found) is still there; from the state [ps2_init] leaves,
    the run ends with no modifier and A in the first slot. *)
Theorem modifier_independence :
  (∀ (code : Z) (is_break is_extended : bool) (k : kbd_state),
     get_modifier_mask (translate code is_extended) ≠ 0 →
     g_keys (handle_scancode code is_break is_extended k) = g_keys k) ∧
  (∀ (code : Z) (is_break is_extended : bool) (k : kbd_state),
     get_modifier_mask (translate code is_extended) = 0 →
     g_modifiers (handle_scancode code is_break is_extended k) = g_modifiers k) ∧
  (∀ k : kbd_state,
     let k2 := handle_scancode 0x1C false false (handle_scancode 0x12 false false k) in
     let k3 := handle_scancode 0x12 true false k2 in
     Z.land (g_modifiers k3) HID_MOD_LEFT_SHIFT = 0 ∧
     g_keys k3 = g_keys k2 ∧
     (kbd_wf k → 0 ∈ g_keys k ∨ HID_KEY_A ∈ g_keys k → HID_KEY_A ∈ g_keys k3)) ∧
  (∀ (clk : bool) (st : ps2_state),
     let k := kbd (ps2_init clk st) in
     let k2 := handle_scancode 0x1C false false (handle_scancode 0x12 false false k) in
     let k3 := handle_scancode 0x12 true false k2 in
     g_modifiers k3 = 0 ∧ g_keys k3 = [HID_KEY_A; 0; 0; 0; 0; 0]).
Proof.
  split; [| split; [| split]].
  - intros code is_break is_extended k Hmod. rewrite handle_scancode_translate.
    destruct (_ =? 0); [reflexivity |].
    destruct is_break; [by apply release_key_keeps_keys | by apply press_key_keeps_keys].
  - intros code is_break is_extended k Hplain. rewrite handle_scancode_translate.
    destruct (_ =? 0); [reflexivity |].
    destruct is_break;
      [by apply release_key_keeps_modifiers | by apply press_key_keeps_modifiers].
  - intros k k2 k3. subst k3.
    change (handle_scancode 0x12 true false k2) with (release_key 0xFE k2).
    split; [| split].
    + change HID_MOD_LEFT_SHIFT with (get_modifier_mask 0xFE).
      by apply release_key_clears_bit.
    + by apply release_key_keeps_keys.
    + intros (_ & Hlen & _) Hroom.
      rewrite release_key_keeps_keys by done. subst k2.
      change (handle_scancode 0x12 false false k) with (press_key 0xFE k).
      change (handle_scancode 0x1C false false (press_key 0xFE k))
        with (press_key HID_KEY_A (press_key 0xFE k)).
      apply (press_key_stores HID_KEY_A (press_key 0xFE k));
        rewrite ?press_key_keeps_keys by done; done.
  - intros clk st. done.
Qed.

Lemma modifier_independence_witness :
  let k := {| g_modifiers := 0x11; g_keys := [0x05; 0; 0x06; 0; 0; 0];
              g_state_changed := false |} in
  g_keys (handle_scancode 0x59 false false k) = g_keys k ∧
  g_modifiers (handle_scancode 0x6B true true k) = g_modifiers k ∧
  HID_KEY_A ∈ g_keys (handle_scancode 0x12 true false
                        (handle_scancode 0x1C false false
                           (handle_scancode 0x12 false false k))).
Proof.
  destruct modifier_independence as (Hkeys & Hmods & Hrun & _).
  cbv zeta. split; [| split].
  - apply (Hkeys 0x59 false false). discriminate.
  - apply (Hmods 0x6B true true). reflexivity.
  - apply Hrun.
    + kbd_wf_tac.
    + left. cbn. rewrite !elem_of_cons. right. by left.
Defined.

(** ** Six-key rollover *)

Section Rollover.

(** Pressing an ordinary key that is not held, on an array whose occupied
    slots come first, fills the first free slot. *)
Lemma press_key_appends (hs : list Z) (n : nat) (h : Z) (k : kbd_state) :
  g_keys k = hs ++ replicate (S n) 0 → (length hs + S n = 6)%nat →
  Forall ordinary hs → ordinary h → h ∉ hs →
  g_keys (press_key h k) = (hs ++ [h]) ++ replicate n 0.
Proof.
  intros Hkeys Hlen Hhs (Hnz & Hplain & Hcaps) Hfresh.
  rewrite press_key_plain by assumption.
  assert (Hid : key_identity h = h).
  { unfold key_identity. destruct (Z.eqb_spec h 0xFC); [contradiction | reflexivity]. }
  rewrite Hid, Hkeys.
  rewrite (find_key_absent (hs ++ replicate (S n) 0) h).
  2:{ rewrite elem_of_app, elem_of_replicate. intros [? | [? _]]; congruence. }
  assert (Hslot : find_key (hs ++ replicate (S n) 0) 0 = Some (length hs)).
  { apply scan_keys_first.
    - lia.
    - rewrite lookup_app_r by lia. rewrite Nat.sub_diag. reflexivity.
    - intros j' Hj'. rewrite lookup_app_l by lia. intros Hl.
      apply list_elem_of_lookup_2 in Hl.
      rewrite Forall_forall in Hhs. by destruct (Hhs 0 Hl) as [? _]. }
  rewrite Hslot. cbn [g_keys].
  replace (length hs) with (length hs + 0)%nat at 1 by lia.
  rewrite insert_app_r. cbn. by rewrite <- app_assoc.
Qed.

Lemma press_all_fills (ps : list make_code) (k : kbd_state) :
  g_keys k = replicate 6 0 → (length ps ≤ 6)%nat →
  Forall ordinary (identities ps) → NoDup (identities ps) →
  g_keys (press_all ps k) = identities ps ++ replicate (6 - length ps) 0.
Proof.
  intros Hempty. induction ps as [| p ps IH] using rev_ind; intros Hlen Hord Hnd.
  - exact Hempty.
  - unfold press_all, identities in *.
    rewrite foldl_snoc, fmap_app in *. rewrite length_app in Hlen. cbn in Hlen.
    apply Forall_app in Hord as [Hord Hp].
    apply (List.Forall_inv (l := [])) in Hp. cbn beta in Hp.
    apply NoDup_app in Hnd as (Hnd & Hfresh & _).
    rewrite length_app. cbn [length fmap list_fmap].
    unfold dispatch_press at 1.
    rewrite handle_scancode_press by apply Hp.
    replace (6 - (length ps + 1))%nat with (5 - length ps)%nat by lia.
    apply press_key_appends; try done.
    + rewrite IH by (done || lia). do 2 f_equal. lia.
    + rewrite length_fmap. lia.
    + intros Hin. apply (Hfresh _ Hin). apply list_elem_of_singleton. reflexivity.
Qed.

End Rollover.

(** C3.  From an empty keys array, presses of seven mapped ordinary keys
    with pairwise distinct identities: after the first six all six slots
    are occupied, and the seventh press gives back the state it was
    given, so keys, modifiers and changed flag stay and six slots are
    occupied at the end. *)
Theorem rollover_ceiling (ps : list make_code) (p7 : make_code) (k : kbd_state) :
  g_keys k = replicate 6 0 →
  length ps = 6%nat →
  Forall ordinary (identities (ps ++ [p7])) →
  NoDup (identities (ps ++ [p7])) →
  let k6 := press_all ps k in
  let k7 := press_all (ps ++ [p7]) k in
  occupied (g_keys k6) = 6%nat ∧ k7 = k6 ∧ occupied (g_keys k7) = 6%nat.
Proof.
  intros Hempty Hlen Hord Hnd k6 k7.
  unfold identities in Hord, Hnd. rewrite fmap_app in Hord, Hnd.
  apply Forall_app in Hord as [Hord Hp].
  apply (List.Forall_inv (l := [])) in Hp. cbn beta in Hp.
  apply NoDup_app in Hnd as (Hnd & Hfresh & _).
  assert (Hkeys : g_keys k6 = identities ps).
  { subst k6. rewrite press_all_fills by (done || lia).
    rewrite Hlen. apply app_nil_r. }
  assert (Hfull : occupied (g_keys k6) = 6%nat).
  { rewrite Hkeys. unfold occupied.
    replace (filter (λ x, x ≠ 0) (identities ps)) with (identities ps).
    - unfold identities. by rewrite length_fmap.
    - clear -Hord. fold (identities ps) in Hord.
      induction (identities ps) as [| h hs IH]; [reflexivity |].
      apply Forall_cons in Hord as [[Hnz _] Hord].
      rewrite filter_cons_True by assumption. f_equal. by apply IH. }
  assert (Hdrop : k7 = k6).
  { subst k7. unfold press_all. rewrite foldl_snoc. fold (press_all ps k). fold k6.
    unfold dispatch_press. destruct Hp as (Hnz & Hplain & Hcaps).
    rewrite handle_scancode_press, press_key_plain by assumption.
    assert (Hid : key_identity (translate p7.1 p7.2) = translate p7.1 p7.2).
    { unfold key_identity. destruct (Z.eqb_spec (translate p7.1 p7.2) 0xFC);
        [contradiction | reflexivity]. }
    rewrite Hid, Hkeys.
    rewrite (find_key_absent (identities ps) (translate p7.1 p7.2)).
    2:{ intros Hin. apply (Hfresh _ Hin). apply list_elem_of_singleton. reflexivity. }
    rewrite (find_key_absent (identities ps) 0); [reflexivity |].
    intros Hin. fold (identities ps) in Hord. rewrite Forall_forall in Hord.
    by destruct (Hord 0 Hin) as [? _]. }
  rewrite Hdrop. done.
Qed.

Lemma rollover_ceiling_witness :
  let ps := [(0x1C, false); (0x32, false); (0x21, false);
             (0x23, false); (0x24, false); (0x75, true)] in
  let k6 := press_all ps boot_kbd in
  let k7 := press_all (ps ++ [(0x2B, false)]) boot_kbd in
  occupied (g_keys k6) = 6%nat ∧ k7 = k6 ∧ occupied (g_keys k7) = 6%nat.
Proof.
  apply rollover_ceiling.
  - reflexivity.
  - reflexivity.
  - cbn. repeat (apply List.Forall_cons; [by vm_compute |]). apply List.Forall_nil.
  - apply (bool_decide_unpack _). by vm_compute.
Defined.

(** ** The frame decoder, edge by edge *)

Section Edges.

Lemma falling_edge_index (d : bool) (st : ps2_state) :
  frame_bit_index (falling_edge d st) =
    if frame_bit_index st =? 10 then 0 else u8 (frame_bit_index st + 1).
Proof.
  unfold falling_edge, stop_bit. cbv zeta.
  destruct (Z.eqb_spec (frame_bit_index st) 0) as [-> | ?]; [reflexivity |].
  destruct ((1 <=? frame_bit_index st) && (frame_bit_index st <=? 8)) eqn:Hdata.
  { apply andb_prop in Hdata as [_ Hle%Z.leb_le].
    destruct (Z.eqb_spec (frame_bit_index st) 10); [lia | reflexivity]. }
  destruct (Z.eqb_spec (frame_bit_index st) 9) as [-> | ?]; [reflexivity |].
  destruct (frame_bit_index st =? 10); reflexivity.
Qed.

Lemma falling_edge_kbd (d : bool) (st : ps2_state) :
  kbd (falling_edge d st) = kbd st ∨
  kbd (falling_edge d st) =
    handle_scancode (scancode_byte st) (break_pending st) (extended_pending st) (kbd st).
Proof.
  unfold falling_edge, stop_bit. cbv zeta.
  destruct (_ =? 0); [by left |].
  destruct (_ && _); [by left |].
  destruct (_ =? 9); [by left |].
  destruct (_ =? 10); [| by left].
  destruct (_ =? 0xF0); [by left |].
  destruct (_ =? 0xE0); [by left | by right].
Qed.

(** [falling_edge] neither reads nor writes [last_clk]. *)
Lemma falling_edge_set_last_clk (c d : bool) (st : ps2_state) :
  falling_edge d (set_last_clk c st) = set_last_clk c (falling_edge d st).
Proof.
  unfold falling_edge, stop_bit, set_last_clk. cbv zeta.
  cbn [kbd frame_bit_index scancode_byte break_pending extended_pending last_clk].
  destruct (_ =? 0); [reflexivity |].
  destruct (_ && _); [reflexivity |].
  destruct (_ =? 9); [reflexivity |].
  destruct (_ =? 10); [| reflexivity].
  destruct (_ =? 0xF0); [reflexivity |].
  destruct (_ =? 0xE0); reflexivity.
Qed.

Lemma run_edges_set_last_clk (c : bool) (bits : list bool) (st : ps2_state) :
  run_edges bits (set_last_clk c st) = set_last_clk c (run_edges bits st).
Proof.
  revert st. induction bits as [| d bits IH]; intros st; [reflexivity |].
  cbn [run_edges foldl]. rewrite falling_edge_set_last_clk. apply IH.
Qed.

Lemma set_last_clk_twice (c c' : bool) (st : ps2_state) :
  set_last_clk c (set_last_clk c' st) = set_last_clk c st.
Proof. reflexivity. Qed.

Lemma set_last_clk_same (st : ps2_state) : set_last_clk (last_clk st) st = st.
Proof. by destruct st. Qed.

(** A run of calls does what its falling edges do, and leaves the clock
    level of the last call in [last_clk]. *)
Lemma run_task_edges (samples : list sample) (st : ps2_state) :
  run_task samples st =
    set_last_clk (last_clock (last_clk st) samples)
      (run_edges (edges_of (last_clk st) samples) st).
Proof.
  revert st. induction samples as [| [clk data] samples IH]; intros st.
  - cbn. symmetry. apply set_last_clk_same.
  - change (run_task ((clk, data) :: samples) st)
      with (run_task samples (ps2_task clk data st)).
    rewrite IH.
    assert (Hclk : last_clk (ps2_task clk data st) = clk).
    { unfold ps2_task. by destruct (_ && _). }
    rewrite Hclk.
    change (last_clock (last_clk st) ((clk, data) :: samples))
      with (last_clock clk samples).
    cbn [edges_of]. unfold ps2_task.
    destruct (last_clk st && negb clk).
    + cbn [run_edges foldl]. fold (run_edges (edges_of clk samples)).
      by rewrite run_edges_set_last_clk, set_last_clk_twice.
    + by rewrite run_edges_set_last_clk, set_last_clk_twice.
Qed.

End Edges.

(** ** The frame accumulator *)

Lemma ps2_task_index (clk data : bool) (st : ps2_state) :
  frame_bit_index (ps2_task clk data st) =
    if last_clk st && negb clk
    then (if frame_bit_index st =? 10 then 0 else u8 (frame_bit_index st + 1))
    else frame_bit_index st.
Proof.
  unfold ps2_task. destruct (_ && _); [| reflexivity].
  cbn [set_last_clk frame_bit_index]. apply falling_edge_index.
Qed.

Lemma ps2_task_index_range (clk data : bool) (st : ps2_state) :
  0 <= frame_bit_index st <= 10 →
  0 <= frame_bit_index (ps2_task clk data st) <= 10.
Proof.
  intros Hr. rewrite ps2_task_index. destruct (_ && _); [| assumption].
  destruct (Z.eqb_spec (frame_bit_index st) 10); [lia |].
  rewrite u8_small by (unfold is_u8; lia). lia.
Qed.

Lemma run_task_index_range (samples : list sample) (st : ps2_state) :
  0 <= frame_bit_index st <= 10 →
  0 <= frame_bit_index (run_task samples st) <= 10.
Proof.
  revert st. induction samples as [| [clk data] samples IH]; intros st Hr.
  - exact Hr.
  - apply IH, ps2_task_index_range, Hr.
Qed.

Lemma run_task_last_clk (samples : list sample) (st : ps2_state) :
  last_clk (run_task samples st) = last_clock (last_clk st) samples.
Proof. rewrite run_task_edges. reflexivity. Qed.

(** C6.  After [ps2_init] and any run of calls of [ps2_task],
    [frame_bit_index] lies in 0..10, and [last_clk] holds the clock level
    of the call before (the level [ps2_init] read, when there was none).
    A further call is a falling-edge call when the clock was high at the
    call before and is low now.  On a falling-edge call the index is set
    to 0 when it is 10 and has 1 added to it otherwise, whatever the data
    level, so on such a call it becomes 0 exactly when it was 10; on any
    other call it stays as it is. *)
Theorem frame_accumulator_invariant
    (clk0 : bool) (st0 : ps2_state) (samples : list sample) (clk data : bool) :
  let st := run_task samples (ps2_init clk0 st0) in
  let st' := ps2_task clk data st in
  let previous_clk := last_clock clk0 samples in
  0 <= frame_bit_index st <= 10 ∧
  last_clk st = previous_clk ∧
  (if previous_clk && negb clk
   then (if frame_bit_index st =? 10
         then frame_bit_index st' = 0
         else frame_bit_index st' = frame_bit_index st + 1) ∧
        (frame_bit_index st' = 0 ↔ frame_bit_index st = 10)
   else frame_bit_index st' = frame_bit_index st).
Proof.
  intros st st' previous_clk.
  assert (Hr : 0 <= frame_bit_index st <= 10).
  { subst st. apply run_task_index_range. cbn. lia. }
  assert (Hclk : last_clk st = previous_clk).
  { subst st. apply (run_task_last_clk samples (ps2_init clk0 st0)). }
  split; [exact Hr |]. split; [exact Hclk |].
  subst st'. rewrite ps2_task_index, Hclk.
  destruct (previous_clk && negb clk); [| reflexivity].
  destruct (Z.eqb_spec (frame_bit_index st) 10) as [H10 | H10].
  - tauto.
  - rewrite u8_small by (unfold is_u8; lia). split; [reflexivity | lia].
Qed.

(** ** Accessors *)

(** C10.  [ps2_get_modifiers], [ps2_get_keys] and [ps2_state_changed]
    return the field they are named after and leave the whole state as it
    was; [ps2_clear_changed] leaves the modifiers byte, the keys array and
    the five fields of the frame decoder as they were. *)
Theorem observers_are_pure (st : ps2_state) :
  ps2_get_modifiers st = (g_modifiers (kbd st), st) ∧
  ps2_get_keys st = (g_keys (kbd st), st) ∧
  ps2_state_changed st = (g_state_changed (kbd st), st) ∧
  g_modifiers (kbd (ps2_clear_changed st)) = g_modifiers (kbd st) ∧
  g_keys (kbd (ps2_clear_changed st)) = g_keys (kbd st) ∧
  frame_bit_index (ps2_clear_changed st) = frame_bit_index st ∧
  scancode_byte (ps2_clear_changed st) = scancode_byte st ∧
  last_clk (ps2_clear_changed st) = last_clk st ∧
  break_pending (ps2_clear_changed st) = break_pending st ∧
  extended_pending (ps2_clear_changed st) = extended_pending st.
Proof. repeat split. Qed.

(** ** The changed flag *)

Lemma ps2_task_same_or_changed (clk data : bool) (st : ps2_state) :
  kbd (ps2_task clk data st) = kbd st ∨
  g_state_changed (kbd (ps2_task clk data st)) = true.
Proof.
  unfold ps2_task. destruct (_ && _); [| by left].
  cbn [set_last_clk kbd].
  destruct (falling_edge_kbd data st) as [-> | ->]; [by left |].
  apply handle_scancode_same_or_changed.
Qed.

Lemma same_or_changed_protocol (k k' : kbd_state) :
  k' = k ∨ g_state_changed k' = true →
  (g_modifiers k' ≠ g_modifiers k ∨ g_keys k' ≠ g_keys k → g_state_changed k' = true) ∧
  (g_state_changed k = true → g_state_changed k' = true).
Proof. intros [-> | Hset]; [tauto | done]. Qed.

(** C8.  A scancode dispatch or a call of [ps2_task] that alters the
    modifiers or the keys leaves the changed flag true, and neither takes
    the flag from true to false.  Of the calls made once [ps2_init] has
    run ([ps2_task], the three readers, [ps2_clear_changed]) the only one
    that takes the flag from true to false is [ps2_clear_changed], which
    always leaves it false.  [ps2_init] itself starts the flag out at
    false, the value the static initialiser already gave it. *)
Theorem changed_flag_protocol :
  (∀ (code : Z) (is_break is_extended : bool) (k : kbd_state),
     let k' := handle_scancode code is_break is_extended k in
     (g_modifiers k' ≠ g_modifiers k ∨ g_keys k' ≠ g_keys k →
      g_state_changed k' = true) ∧
     (g_state_changed k = true → g_state_changed k' = true)) ∧
  (∀ (clk data : bool) (st : ps2_state),
     let st' := ps2_task clk data st in
     (g_modifiers (kbd st') ≠ g_modifiers (kbd st) ∨ g_keys (kbd st') ≠ g_keys (kbd st) →
      g_state_changed (kbd st') = true) ∧
     (g_state_changed (kbd st) = true → g_state_changed (kbd st') = true)) ∧
  (∀ (o : op) (st : ps2_state),
     g_state_changed (kbd st) = true →
     g_state_changed (kbd (exec o st)) = false →
     o = OpClearChanged) ∧
  (∀ st : ps2_state, g_state_changed (kbd (ps2_clear_changed st)) = false) ∧
  (∀ clk : bool, kbd (ps2_init clk boot_state) = kbd boot_state) ∧
  g_state_changed (kbd boot_state) = false.
Proof.
  repeat apply conj; try done.
  - intros code is_break is_extended k.
    apply same_or_changed_protocol, handle_scancode_same_or_changed.
  - intros clk data st.
    apply same_or_changed_protocol, ps2_task_same_or_changed.
  - intros o st Hset Hclear. destruct o as [clk data | | | |]; cbn in Hclear;
      try congruence.
    destruct (ps2_task_same_or_changed clk data st) as [Hsame | Hch]; congruence.
Qed.

Lemma changed_flag_protocol_witness :
  let st := ps2_task false true (with_frame 10 0x1C (ps2_init true boot_state)) in
  g_keys (kbd st) ≠ g_keys (kbd (with_frame 10 0x1C (ps2_init true boot_state))) ∧
  g_state_changed (kbd st) = true ∧
  g_state_changed (kbd (ps2_task true true st)) = true ∧
  g_state_changed (kbd (exec OpClearChanged st)) = false.
Proof.
  destruct changed_flag_protocol as (_ & Htask & _ & Hclear & _).
  cbv zeta.
  set (st0 := with_frame 10 0x1C (ps2_init true boot_state)).
  assert (Hkeys : g_keys (kbd (ps2_task false true st0)) ≠ g_keys (kbd st0))
    by discriminate.
  repeat apply conj.
  - exact Hkeys.
  - apply (proj1 (Htask false true st0)). right. exact Hkeys.
  - apply (proj2 (Htask true true (ps2_task false true st0))).
    apply (proj1 (Htask false true st0)). right. exact Hkeys.
  - apply Hclear.
Defined.

(** ** Shifting the data bits in *)

Section ShiftIn.

Lemma land_bit7_small (x : Z) : 0 <= x < 128 → Z.land x 0x80 = 0.
Proof.
  intros Hx. byte_bits n. change 0x80 with (2 ^ 7).
  rewrite Z.pow2_bits_eqb by lia.
  destruct (Z.eqb_spec 7 n) as [<- | _]; [| apply andb_false_r].
  assert (Hhigh : ∀ l, 7 <= l → Z.testbit x l = false).
  { apply Z.bounded_iff_bits_nonneg; [lia | lia |]. change (2 ^ 7) with 128. lia. }
  rewrite Hhigh by lia. reflexivity.
Qed.

Lemma shift_in_arith (d : bool) (b : Z) :
  is_u8 b → shift_in d b = b / 2 + 128 * Z.b2z d.
Proof.
  unfold is_u8. intros Hb. unfold shift_in. cbv zeta.
  rewrite Z.shiftr_div_pow2 by lia. change (2 ^ 1) with 2.
  assert (Hhalf : 0 <= b / 2 < 128) by (Z.div_mod_to_equations; lia).
  rewrite (u8_small (b / 2)) by (unfold is_u8; lia).
  destruct d; cbn [Z.b2z]; [| lia].
  rewrite <- Z.add_nocarry_lor by (by apply land_bit7_small).
  rewrite u8_small by (unfold is_u8; lia). lia.
Qed.

Lemma shift_in_is_u8 (d : bool) (b : Z) : is_u8 b → is_u8 (shift_in d b).
Proof.
  intros Hb. rewrite shift_in_arith by assumption.
  unfold is_u8 in *. destruct d; cbn [Z.b2z]; Z.div_mod_to_equations; lia.
Qed.

Lemma b2z_range (d : bool) : 0 <= Z.b2z d <= 1.
Proof. destruct d; cbn; lia. Qed.

(** Eight data bits shifted in one after the other push out whatever the
    accumulator held and leave the first bit lowest. *)
Lemma shift_in_eight (d1 d2 d3 d4 d5 d6 d7 d8 : bool) (b : Z) :
  is_u8 b →
  shift_in d8 (shift_in d7 (shift_in d6 (shift_in d5
    (shift_in d4 (shift_in d3 (shift_in d2 (shift_in d1 b)))))))
  = byte_of_bits [d1; d2; d3; d4; d5; d6; d7; d8].
Proof.
  intros Hb.
  rewrite !shift_in_arith by (repeat apply shift_in_is_u8; assumption).
  cbn [byte_of_bits]. unfold is_u8 in Hb.
  pose proof (b2z_range d1). pose proof (b2z_range d2).
  pose proof (b2z_range d3). pose proof (b2z_range d4).
  pose proof (b2z_range d5). pose proof (b2z_range d6).
  pose proof (b2z_range d7). pose proof (b2z_range d8).
  Z.div_mod_to_equations. lia.
Qed.

Lemma byte_of_bits_testbit (ds : list bool) (i : nat) (d : bool) :
  ds !! i = Some d → Z.testbit (byte_of_bits ds) (Z.of_nat i) = d.
Proof.
  revert i. induction ds as [| d0 ds IH]; intros i; [done |].
  cbn [byte_of_bits]. rewrite (Z.add_comm (Z.b2z d0)).
  destruct i as [| i].
  - intros [= ->]. apply Z.testbit_0_r.
  - intros Hl. rewrite Nat2Z.inj_succ, Z.testbit_succ_r by lia. by apply IH.
Qed.

Lemma byte_of_bits_bound (ds : list bool) :
  0 <= byte_of_bits ds < 2 ^ Z.of_nat (length ds).
Proof.
  induction ds as [| d ds IH]; [cbn; lia |].
  cbn [byte_of_bits length]. rewrite Nat2Z.inj_succ, Z.pow_succ_r by lia.
  destruct d; cbn [Z.b2z]; lia.
Qed.

Lemma byte_of_bits_of_byte (b : Z) : is_u8 b → byte_of_bits (bits_of_byte b) = b.
Proof.
  intros Hb. apply Z.bits_inj'. intros n Hn.
  destruct (Z.ltb_spec n 8) as [Hlt | Hge].
  - rewrite <- (Z2Nat.id n Hn). apply byte_of_bits_testbit.
    unfold bits_of_byte. rewrite list_lookup_fmap, lookup_seq_lt by lia.
    reflexivity.
  - rewrite (is_u8_high_bits b n Hb Hge).
    apply (is_u8_high_bits _ n); [| assumption].
    apply (byte_of_bits_bound (bits_of_byte b)).
Qed.

End ShiftIn.
(** ** Whole frames *)

Section Frame.

Lemma stop_bit_with_frame (i code : Z) (st : ps2_state) :
  stop_bit (with_frame i code st) = deliver code st.
Proof.
  unfold deliver, stop_bit, with_frame, set_scancode_byte. cbv zeta.
  cbn [kbd frame_bit_index scancode_byte break_pending extended_pending last_clk].
  destruct (code =? 0xF0); [reflexivity |].
  destruct (code =? 0xE0); reflexivity.
Qed.

Lemma with_frame_same (st : ps2_state) :
  with_frame (frame_bit_index st) (scancode_byte st) st = st.
Proof. by destruct st. Qed.

(** One falling edge on a state whose accumulator is known. *)
Lemma falling_edge_skip (d : bool) (i j b : Z) (st : ps2_state) :
  i = 0 ∨ i = 9 → j = i + 1 →
  falling_edge d (with_frame i b st) = with_frame j b st.
Proof. intros [-> | ->] ->; reflexivity. Qed.

Lemma falling_edge_data (d : bool) (i j b : Z) (st : ps2_state) :
  1 <= i <= 8 → j = i + 1 →
  falling_edge d (with_frame i b st) = with_frame j (shift_in d b) st.
Proof.
  intros Hi ->. unfold falling_edge, with_frame. cbv zeta.
  cbn [kbd frame_bit_index scancode_byte break_pending extended_pending last_clk].
  destruct (Z.eqb_spec i 0); [lia |].
  destruct (Z.leb_spec 1 i); [| lia].
  destruct (Z.leb_spec i 8); [| lia].
  cbn [andb]. rewrite u8_small by (unfold is_u8; lia). reflexivity.
Qed.

Lemma falling_edge_stop (d : bool) (b : Z) (st : ps2_state) :
  falling_edge d (with_frame 10 b st) = stop_bit (with_frame 10 b st).
Proof. reflexivity. Qed.

(** The first ten edges of a frame: the start bit is skipped, the eight
    data bits are shifted in, the parity bit is skipped. *)
Lemma run_edges_ten (start d1 d2 d3 d4 d5 d6 d7 d8 parity : bool) (b : Z) (st : ps2_state) :
  run_edges [start; d1; d2; d3; d4; d5; d6; d7; d8; parity] (with_frame 0 b st) =
  with_frame 10
    (shift_in d8 (shift_in d7 (shift_in d6 (shift_in d5
       (shift_in d4 (shift_in d3 (shift_in d2 (shift_in d1 b))))))))
    st.
Proof.
  unfold run_edges. cbn [foldl].
  rewrite (falling_edge_skip start 0 1) by lia.
  rewrite (falling_edge_data d1 1 2), (falling_edge_data d2 2 3),
    (falling_edge_data d3 3 4), (falling_edge_data d4 4 5),
    (falling_edge_data d5 5 6), (falling_edge_data d6 6 7),
    (falling_edge_data d7 7 8), (falling_edge_data d8 8 9) by lia.
  apply falling_edge_skip; lia.
Qed.

Lemma run_edges_snoc (bits : list bool) (d : bool) (st : ps2_state) :
  run_edges (bits ++ [d]) st = falling_edge d (run_edges bits st).
Proof. unfold run_edges. by rewrite foldl_snoc. Qed.

Lemma run_edges_frame (start parity stop : bool) (ds : list bool) (st : ps2_state) :
  frame_bit_index st = 0 → is_u8 (scancode_byte st) → length ds = 8%nat →
  run_edges (frame start ds parity stop) st = deliver (byte_of_bits ds) st.
Proof.
  intros Hidx Hbyte Hlen.
  do 8 (destruct ds as [| ? ds]; [discriminate Hlen |]).
  destruct ds; [| discriminate Hlen]. clear Hlen.
  rewrite <- (shift_in_eight _ _ _ _ _ _ _ _ (scancode_byte st) Hbyte).
  rewrite <- (with_frame_same st) at 1. rewrite Hidx.
  unfold frame. cbn [app].
  change [start; b; b0; b1; b2; b3; b4; b5; b6; parity; stop]
    with ([start; b; b0; b1; b2; b3; b4; b5; b6; parity] ++ [stop]).
  rewrite run_edges_snoc.
  rewrite run_edges_ten, falling_edge_stop. apply stop_bit_with_frame.
Qed.

Lemma run_task_frame (samples : list sample) (bits : list bool) (st : ps2_state) :
  frame_bit_index st = 0 → is_u8 (scancode_byte st) → length bits = 11%nat →
  edges_of (last_clk st) samples = bits →
  run_task samples st =
    set_last_clk (last_clock (last_clk st) samples) (deliver (frame_byte bits) st).
Proof.
  intros Hidx Hbyte Hlen Hedges. rewrite run_task_edges, Hedges. f_equal.
  do 11 (destruct bits as [| ? bits]; [discriminate Hlen |]).
  destruct bits; [| discriminate Hlen].
  by apply (run_edges_frame b b8 b9 [b0; b1; b2; b3; b4; b5; b6; b7]).
Qed.

Lemma frame_byte_frame (start parity stop : bool) (b : Z) :
  is_u8 b → frame_byte (frame start (bits_of_byte b) parity stop) = b.
Proof. intros Hb. by apply (byte_of_bits_of_byte b). Qed.



(** What the stop-bit branch does with a completed byte. *)
Lemma deliver_break_prefix (st : ps2_state) :
  deliver 0xF0 st =
    {| kbd := kbd st; frame_bit_index := 0; scancode_byte := 0;
       break_pending := true; extended_pending := extended_pending st;
       last_clk := last_clk st |}.
Proof. reflexivity. Qed.

Lemma deliver_extended_prefix (st : ps2_state) :
  deliver 0xE0 st =
    {| kbd := kbd st; frame_bit_index := 0; scancode_byte := 0;
       break_pending := break_pending st; extended_pending := true;
       last_clk := last_clk st |}.
Proof. reflexivity. Qed.

Lemma deliver_scancode (code : Z) (st : ps2_state) :
  code ≠ 0xF0 → code ≠ 0xE0 →
  deliver code st =
    {| kbd := handle_scancode code (break_pending st) (extended_pending st) (kbd st);
       frame_bit_index := 0; scancode_byte := 0;
       break_pending := false; extended_pending := false;
       last_clk := last_clk st |}.
Proof.
  intros Hb He. unfold deliver, stop_bit, set_scancode_byte. cbv zeta.
  cbn [kbd frame_bit_index scancode_byte break_pending extended_pending last_clk].
  destruct (Z.eqb_spec code 0xF0); [contradiction |].
  destruct (Z.eqb_spec code 0xE0); [contradiction | reflexivity].
Qed.

End Frame.

(** ** Byte reconstruction *)




(** ** Prefix bytes *)

Lemma run_task_carries (st : ps2_state) (samples : list sample) (b : Z) :
  frame_bit_index st = 0 → is_u8 (scancode_byte st) → is_u8 b →
  carries st samples b →
  run_task samples st =
    set_last_clk (last_clock (last_clk st) samples) (deliver b st).
Proof.
  intros Hidx Hbyte Hb (start & parity & stop & Hedges).
  rewrite (run_task_frame samples (frame start (bits_of_byte b) parity stop) st)
    by (assumption || reflexivity).
  by rewrite frame_byte_frame.
Qed.

(** C1.  A complete frame whose byte is 0xF0 sets [break_pending], one
    whose byte is 0xE0 sets [extended_pending], and neither touches the
    keyboard state; a frame with any other byte [S] runs
    [handle_scancode S break_pending extended_pending] and clears both
    flags.  So, from a state with both flags clear, the three frames
    0xE0, 0xF0, [S] leave the keyboard state that
    [handle_scancode S true true] gives, and both flags clear again. *)
Theorem prefix_accumulation :
  (∀ (st : ps2_state) (samples : list sample) (S : Z),
     frame_bit_index st = 0 → is_u8 (scancode_byte st) → is_u8 S →
     carries st samples S →
     let st' := run_task samples st in
     frame_bit_index st' = 0 ∧ scancode_byte st' = 0 ∧
     (S = 0xF0 →
      kbd st' = kbd st ∧ break_pending st' = true ∧
      extended_pending st' = extended_pending st) ∧
     (S = 0xE0 →
      kbd st' = kbd st ∧ break_pending st' = break_pending st ∧
      extended_pending st' = true) ∧
     (S ≠ 0xF0 → S ≠ 0xE0 →
      kbd st' = handle_scancode S (break_pending st) (extended_pending st) (kbd st) ∧
      break_pending st' = false ∧ extended_pending st' = false)) ∧
  (∀ (st : ps2_state) (s1 s2 s3 : list sample) (S : Z),
     frame_bit_index st = 0 → is_u8 (scancode_byte st) →
     break_pending st = false → extended_pending st = false →
     is_u8 S → S ≠ 0xF0 → S ≠ 0xE0 →
     carries st s1 0xE0 →
     carries (run_task s1 st) s2 0xF0 →
     carries (run_task s2 (run_task s1 st)) s3 S →
     let st' := run_task (s1 ++ s2 ++ s3) st in
     kbd st' = handle_scancode S true true (kbd st) ∧
     break_pending st' = false ∧ extended_pending st' = false).
Proof.
  assert (Hone : ∀ (st : ps2_state) (samples : list sample) (S : Z),
     frame_bit_index st = 0 → is_u8 (scancode_byte st) → is_u8 S →
     carries st samples S →
     let st' := run_task samples st in
     frame_bit_index st' = 0 ∧ scancode_byte st' = 0 ∧
     (S = 0xF0 →
      kbd st' = kbd st ∧ break_pending st' = true ∧
      extended_pending st' = extended_pending st) ∧
     (S = 0xE0 →
      kbd st' = kbd st ∧ break_pending st' = break_pending st ∧
      extended_pending st' = true) ∧
     (S ≠ 0xF0 → S ≠ 0xE0 →
      kbd st' = handle_scancode S (break_pending st) (extended_pending st) (kbd st) ∧
      break_pending st' = false ∧ extended_pending st' = false)).
  { intros st samples S Hidx Hbyte HS Hframe st'. subst st'.
    rewrite (run_task_carries st samples S) by assumption.
    split; [| split; [| split; [| split]]].
    - unfold deliver, stop_bit. reflexivity.
    - unfold deliver, stop_bit. reflexivity.
    - intros ->. rewrite deliver_break_prefix. done.
    - intros ->. rewrite deliver_extended_prefix. done.
    - intros Hb He. rewrite deliver_scancode by assumption. done. }
  split; [exact Hone |].
  intros st s1 s2 s3 S Hidx Hbyte Hbp Hep HS Hb He H1 H2 H3 st'.
  subst st'. unfold run_task. rewrite !foldl_app.
  fold (run_task s1 st). fold (run_task s2 (run_task s1 st)).
  fold (run_task s3 (run_task s2 (run_task s1 st))).
  destruct (Hone st s1 0xE0 Hidx Hbyte) as (Hi1 & Hb1 & _ & Hext & _);
    [unfold is_u8; lia | assumption |].
  destruct (Hext eq_refl) as (Hk1 & Hbp1 & Hep1).
  destruct (Hone (run_task s1 st) s2 0xF0) as (Hi2 & Hb2 & Hbrk & _);
    [assumption | rewrite Hb1; unfold is_u8; lia | unfold is_u8; lia | assumption |].
  destruct (Hbrk eq_refl) as (Hk2 & Hbp2 & Hep2).
  destruct (Hone (run_task s2 (run_task s1 st)) s3 S) as (_ & _ & _ & _ & Hcode);
    [assumption | rewrite Hb2; unfold is_u8; lia | assumption | assumption |].
  destruct (Hcode Hb He) as (Hk3 & Hbp3 & Hep3).
  rewrite Hk3, Hbp3, Hep3, Hbp2, Hep2, Hep1, Hk2, Hk1. done.
Qed.

Lemma prefix_accumulation_witness :
  let st := ps2_init true boot_state in
  let st0 := run_task (clocked (frame false (bits_of_byte 0x75) true true)) st in
  let s1 := clocked (frame false (bits_of_byte 0xE0) false true) in
  let s2 := clocked (frame false (bits_of_byte 0xF0) true true) in
  let s3 := clocked (frame false (bits_of_byte 0x75) false true) in
  kbd (run_task (s1 ++ s2 ++ s3) st0) = handle_scancode 0x75 true true (kbd st0).
Proof.
  intros st st0 s1 s2 s3.
  apply (proj2 prefix_accumulation st0 s1 s2 s3 0x75).
  - reflexivity.
  - by vm_compute.
  - reflexivity.
  - reflexivity.
  - by vm_compute.
  - discriminate.
  - discriminate.
  - exists false, false, true. by vm_compute.
  - exists false, true, true. by vm_compute.
  - exists false, false, true. by vm_compute.
Defined.

(** * Further properties *)

(** ** The tables *)

Section Tables.

(** Outside the 256 entries of a table nothing is mapped. *)
Lemma translate_outside (code : Z) (is_extended : bool) :
  ¬ is_u8 code → translate code is_extended = 0.
Proof.
  unfold is_u8. intros Hout.
  destruct is_extended;
    (destruct code as [| p | p]; [lia | | reflexivity]);
    do 8 (try (destruct p as [p | p |]; try reflexivity; try lia)).
Qed.

(** A property that holds of the 256 bytes, checked one byte at a time,
    holds of every byte. *)
Lemma for_all_bytes (P : Z → Prop) :
  Forall P (seqZ 0 256) → ∀ z, is_u8 z → P z.
Proof.
  intros Hall z Hz. rewrite Forall_forall in Hall.
  apply Hall, elem_of_seqZ. unfold is_u8 in Hz. lia.
Qed.

End Tables.

Section TableFacts.

(** What is stored in a slot for a key that is not a modifier is an
    ordinary keycode. *)
Lemma stored_identity_range (code : Z) (is_extended : bool) :
  get_modifier_mask (translate code is_extended) = 0 →
  0 <= key_identity (translate code is_extended) <= HID_KEY_APPLICATION.
Proof.
  destruct (decide (is_u8 code)) as [Hin | Hout].
  - revert code Hin.
    apply (for_all_bytes (λ code,
             get_modifier_mask (translate code is_extended) = 0 →
             0 <= key_identity (translate code is_extended) <= HID_KEY_APPLICATION)).
    destruct is_extended; apply (bool_decide_unpack _); by vm_compute.
  - rewrite (translate_outside _ _ Hout). by vm_compute.
Qed.

Lemma translate_mapped_u8 (code : Z) (is_extended : bool) :
  translate code is_extended ≠ 0 → is_u8 code.
Proof.
  intros Hmapped. destruct (decide (is_u8 code)) as [Hin | Hout]; [assumption |].
  contradiction Hmapped. by apply translate_outside.
Qed.

End TableFacts.

(** X1.  Two different mapped keys, told apart by scancode and extended
    flag, never share the identity they are tracked under. *)
Theorem mapped_keys_have_distinct_identities
    (code1 code2 : Z) (ext1 ext2 : bool) :
  translate code1 ext1 ≠ 0 →
  key_identity (translate code1 ext1) = key_identity (translate code2 ext2) →
  code1 = code2 ∧ ext1 = ext2.
Proof.
  intros Hmapped Hsame.
  assert (Hmapped2 : translate code2 ext2 ≠ 0).
  { intros H0. rewrite H0 in Hsame. revert Hsame.
    pose proof (translate_mapped_u8 _ _ Hmapped) as Hin.
    revert code1 Hin Hmapped.
    apply (for_all_bytes (λ code1, translate code1 ext1 ≠ 0 →
             key_identity (translate code1 ext1) = key_identity 0 → False)).
    destruct ext1; apply (bool_decide_unpack _); by vm_compute. }
  pose proof (translate_mapped_u8 _ _ Hmapped) as Hin1.
  pose proof (translate_mapped_u8 _ _ Hmapped2) as Hin2.
  assert (Hall : Forall (λ c1, Forall (λ c2,
            translate c1 ext1 ≠ 0 →
            key_identity (translate c1 ext1) = key_identity (translate c2 ext2) →
            c1 = c2 ∧ ext1 = ext2) (seqZ 0 256)) (seqZ 0 256)).
  { destruct ext1, ext2; apply (bool_decide_unpack _); by vm_compute. }
  exact (for_all_bytes _ (for_all_bytes _ Hall code1 Hin1) code2 Hin2 Hmapped Hsame).
Qed.

Lemma mapped_keys_have_distinct_identities_witness :
  0x75 = 0x75 ∧ true = true.
Proof.
  apply (mapped_keys_have_distinct_identities 0x75 0x75 true true).
  - discriminate.
  - reflexivity.
Defined.

(** ** What the tracker keeps true *)

Section Invariant.

Lemma keys_distinct_store (keys : list Z) (i : nat) (v : Z) :
  length keys = 6%nat → keys_distinct keys →
  find_key keys v = None → keys_distinct (<[i := v]> keys).
Proof.
  intros Hlen Hdist Hnew a b x Ha Hb Hx.
  apply list_lookup_insert_Some in Ha as [(-> & <- & Hia) | (Hai & Ha)];
    apply list_lookup_insert_Some in Hb as [(Hib & Hvx & Hlt) | (Hbi & Hb)].
  - done.
  - exfalso. apply (scan_keys_None _ _ _ _ Hnew b); [| assumption].
    apply lookup_lt_Some in Hb. lia.
  - subst. exfalso. apply (scan_keys_None _ _ _ _ Hnew a); [| assumption].
    apply lookup_lt_Some in Ha. lia.
  - by apply (Hdist a b x).
Qed.

Lemma keys_distinct_clear (keys : list Z) (i : nat) :
  keys_distinct keys → keys_distinct (<[i := 0]> keys).
Proof.
  intros Hdist a b x Ha Hb Hx.
  apply list_lookup_insert_Some in Ha as [(_ & <- & _) | (_ & Ha)]; [done |].
  apply list_lookup_insert_Some in Hb as [(_ & <- & _) | (_ & Hb)]; [done |].
  by apply (Hdist a b x).
Qed.

Lemma press_key_inv (code : Z) (is_extended : bool) (k : kbd_state) :
  translate code is_extended ≠ 0 → kbd_inv k →
  kbd_inv (press_key (translate code is_extended) k).
Proof.
  intros Hmapped Hinv.
  pose proof Hinv as ((Hm & Hlen & Hu8) & Hord & Hdist).
  destruct (decide (get_modifier_mask (translate code is_extended) = 0))
    as [Hplain | Hmod].
  - rewrite press_key_plain by assumption.
    destruct (find_key _ (key_identity _)) eqn:Hheld; [assumption |].
    destruct (find_key _ 0) as [i |] eqn:Hslot; [| assumption].
    pose proof (stored_identity_range _ _ Hplain) as Hrange.
    repeat split; cbn [g_modifiers g_keys].
    + apply Hm.
    + apply Hm.
    + by rewrite length_insert.
    + apply Forall_insert; [assumption |].
      unfold is_u8, HID_KEY_APPLICATION in *. lia.
    + by apply Forall_insert.
    + by apply keys_distinct_store.
  - rewrite press_key_modifier by assumption.
    destruct (_ =? 0); [| assumption].
    repeat split; cbn [g_modifiers g_keys]; try done; apply u8_is_u8.
Qed.

Lemma release_key_inv (hid_code : Z) (k : kbd_state) :
  hid_code ≠ 0 → kbd_inv k → kbd_inv (release_key hid_code k).
Proof.
  intros Hnz Hinv.
  pose proof Hinv as ((Hm & Hlen & Hu8) & Hord & Hdist).
  destruct (decide (get_modifier_mask hid_code = 0)) as [Hplain | Hmod].
  - rewrite release_key_plain by assumption.
    destruct (find_key _ _) as [i |]; [| assumption].
    repeat split; cbn [g_modifiers g_keys].
    + apply Hm.
    + apply Hm.
    + by rewrite length_insert.
    + apply Forall_insert; [assumption | unfold is_u8; lia].
    + apply Forall_insert; [assumption | unfold HID_KEY_APPLICATION; lia].
    + by apply keys_distinct_clear.
  - rewrite release_key_modifier by assumption.
    destruct (_ =? 0); [assumption |].
    repeat split; cbn [g_modifiers g_keys]; try done; apply u8_is_u8.
Qed.

Lemma handle_scancode_inv code is_break is_extended k :
  kbd_inv k → kbd_inv (handle_scancode code is_break is_extended k).
Proof.
  intros Hinv. rewrite handle_scancode_translate.
  destruct (Z.eqb_spec (translate code is_extended) 0); [assumption |].
  destruct is_break; [by apply release_key_inv | by apply press_key_inv].
Qed.

Lemma ps2_task_inv (clk data : bool) (st : ps2_state) :
  kbd_inv (kbd st) → kbd_inv (kbd (ps2_task clk data st)).
Proof.
  intros Hinv. unfold ps2_task. destruct (_ && _); [| assumption].
  cbn [set_last_clk kbd].
  destruct (falling_edge_kbd data st) as [-> | ->];
    [assumption | by apply handle_scancode_inv].
Qed.

Lemma kbd_inv_init (clk : bool) (st : ps2_state) : kbd_inv (kbd (ps2_init clk st)).
Proof.
  split; [kbd_wf_tac | split].
  - unfold slots_ordinary, HID_KEY_APPLICATION. cbn.
    repeat first [apply List.Forall_cons | apply List.Forall_nil]; lia.
  - intros i j x Hi Hj Hx.
    change (g_keys (kbd (ps2_init clk st))) with (replicate 6 0) in Hi.
    apply lookup_replicate in Hi as [-> _]. done.
Qed.

End Invariant.

(** Case analysis on a lookup in a list that is written out. *)
Ltac split_index i H :=
  cbn in H;
  lazymatch type of H with
  | None = Some _ => discriminate H
  | Some _ = Some _ => idtac
  | _ => destruct i as [| i]; split_index i H
  end.

Ltac keys_distinct_tac :=
  let i := fresh "i" in let j := fresh "j" in
  let Hi := fresh "Hi" in let Hj := fresh "Hj" in
  intros i j ? Hi Hj ?; split_index i Hi; split_index j Hj; congruence.

(** X2.  A scancode dispatch keeps the tracker's state in shape: the
    modifiers stay a byte, the keys array keeps its six slots, every slot
    holds 0 or an ordinary keycode up to [HID_KEY_APPLICATION] (never a
    modifier or Caps Lock sentinel), and no identity sits in two slots. *)
Theorem dispatch_keeps_invariant
    (code : Z) (is_break is_extended : bool) (k : kbd_state) :
  kbd_inv k → kbd_inv (handle_scancode code is_break is_extended k).
Proof. apply handle_scancode_inv. Qed.

Lemma dispatch_keeps_invariant_witness :
  kbd_inv (handle_scancode 0x1C false false
             {| g_modifiers := 0x02; g_keys := [0x05; 0; 0x06; 0; 0; 0];
                g_state_changed := false |}).
Proof.
  apply dispatch_keeps_invariant.
  split; [kbd_wf_tac | split].
  - unfold slots_ordinary, HID_KEY_APPLICATION. cbn.
    repeat first [apply List.Forall_cons | apply List.Forall_nil]; lia.
  - keys_distinct_tac.
Defined.

(** X3.  After [ps2_init] and any run of calls of [ps2_task], whatever
    the clock and data lines did, the keyboard state is in that shape:
    six slots, each 0 or an ordinary keycode, no identity twice, the
    modifiers a byte. *)
Theorem reachable_states_keep_invariant
    (clk0 : bool) (st0 : ps2_state) (samples : list sample) :
  kbd_inv (kbd (run_task samples (ps2_init clk0 st0))).
Proof.
  assert (Hrun : ∀ st, kbd_inv (kbd st) → kbd_inv (kbd (run_task samples st))).
  { induction samples as [| [clk data] samples IH]; intros st Hinv; [assumption |].
    apply IH, ps2_task_inv, Hinv. }
  apply Hrun, kbd_inv_init.
Qed.

(** ** What a press and a release achieve *)

(** X4.  In a state of the shape above, after the release of a mapped
    key that key is not tracked any more: its modifier bit is clear or,
    for a key that is not a modifier, its identity is in no slot. *)
Theorem release_leaves_key_untracked (code : Z) (is_extended : bool) (k : kbd_state) :
  kbd_inv k →
  translate code is_extended ≠ 0 →
  ¬ key_held (translate code is_extended) (handle_scancode code true is_extended k).
Proof.
  intros ((_ & Hlen & _) & _ & Hdist) Hmapped.
  rewrite handle_scancode_release by assumption.
  set (h := translate code is_extended) in *. unfold key_held.
  destruct (Z.eqb_spec (get_modifier_mask h) 0) as [Hplain | Hmod].
  - pose proof (key_identity_nonzero h Hmapped) as Hid.
    rewrite release_key_plain by assumption.
    destruct (find_key (g_keys k) (key_identity h)) as [i |] eqn:Hheld.
    + cbn [g_keys]. intros Hin.
      apply list_elem_of_lookup in Hin as [j Hj].
      apply find_key_Some in Hheld as (_ & Hi & _).
      apply list_lookup_insert_Some in Hj as [(_ & Heq & _) | (Hne & Hj)];
        [congruence |].
      apply Hne. by apply (Hdist i j (key_identity h)).
    + by apply find_key_None.
  - intros Hset. apply Hset. by apply release_key_clears_bit.
Qed.

Lemma release_leaves_key_untracked_witness :
  ¬ key_held (translate 0x1C false)
      (handle_scancode 0x1C true false
         {| g_modifiers := 0x02; g_keys := [0x05; 0; 0x04; 0; 0; 0];
            g_state_changed := false |}).
Proof.
  apply release_leaves_key_untracked.
  - split; [kbd_wf_tac | split].
    + unfold slots_ordinary, HID_KEY_APPLICATION. cbn.
      repeat first [apply List.Forall_cons | apply List.Forall_nil]; lia.
    + keys_distinct_tac.
  - discriminate.
Defined.

(** X5.  After the press of a mapped key the key is tracked exactly when
    it is a modifier, or was tracked before, or the keys array had a free
    slot; and when it is not tracked after the press (six other keys are
    down), the press has changed nothing at all. *)
Theorem press_outcome (code : Z) (is_extended : bool) (k : kbd_state) :
  kbd_wf k →
  translate code is_extended ≠ 0 →
  let h := translate code is_extended in
  let k' := handle_scancode code false is_extended k in
  (key_held h k' ↔ get_modifier_mask h ≠ 0 ∨ key_held h k ∨ 0 ∈ g_keys k) ∧
  (¬ key_held h k' → k' = k).
Proof.
  intros (_ & Hlen & _) Hmapped h k'. subst k'.
  rewrite handle_scancode_press by assumption. fold h. unfold key_held.
  destruct (Z.eqb_spec (get_modifier_mask h) 0) as [Hplain | Hmod].
  - assert (Hstore : key_identity h ∈ g_keys k ∨ 0 ∈ g_keys k →
                     key_identity h ∈ g_keys (press_key h k)).
    { intros Hroom. apply press_key_stores; tauto. }
    rewrite press_key_plain in * by assumption.
    destruct (find_key (g_keys k) (key_identity h)) as [j |] eqn:Hheld.
    { apply find_key_elem in Hheld. tauto. }
    destruct (find_key (g_keys k) 0) as [i |] eqn:Hslot.
    + apply find_key_elem in Hslot. tauto.
    + tauto.
  - assert (Hset : Z.land (g_modifiers (press_key h k)) (get_modifier_mask h) ≠ 0).
    { rewrite press_key_modifier by assumption.
      destruct (Z.eqb_spec (Z.land (g_modifiers k) (get_modifier_mask h)) 0);
        [| assumption].
      cbn [g_modifiers]. by rewrite set_bits_visible by apply get_modifier_mask_u8. }
    tauto.
Qed.

Lemma press_outcome_witness :
  let k := {| g_modifiers := 0; g_keys := [0x05; 0x06; 0x07; 0x08; 0x09; 0x0A];
              g_state_changed := false |} in
  ¬ key_held (translate 0x1C false) (handle_scancode 0x1C false false k) ∧
  handle_scancode 0x1C false false k = k.
Proof.
  intros k.
  destruct (press_outcome 0x1C false k) as [Hiff Hdrop];
    [kbd_wf_tac | discriminate |].
  assert (Hnot : ¬ key_held (translate 0x1C false) (handle_scancode 0x1C false false k)).
  { intros Hheld. apply Hiff in Hheld as [Hmod | [Hin | Hin]].
    - by apply Hmod.
    - unfold key_held in Hin. cbn in Hin.
      repeat (apply elem_of_cons in Hin as [Heq | Hin]; [discriminate Heq |]).
      by apply elem_of_nil in Hin.
    - cbn in Hin.
      repeat (apply elem_of_cons in Hin as [Heq | Hin]; [discriminate Heq |]).
      by apply elem_of_nil in Hin. }
  split; [exact Hnot | exact (Hdrop Hnot)].
Defined.

(** ** Keys do not disturb one another *)

Section Others.

Lemma get_modifier_mask_outside (hid_code : Z) :
  ¬ is_u8 hid_code → get_modifier_mask hid_code = 0.
Proof.
  unfold is_u8. intros Hout.
  destruct hid_code as [| p | p]; [lia | | reflexivity].
  do 8 (try (destruct p as [p | p |]; try reflexivity; try lia)).
Qed.

(** The eight modifiers have a bit each. *)
Lemma modifier_masks_disjoint (h h' : Z) :
  get_modifier_mask h ≠ 0 → get_modifier_mask h' ≠ 0 → h ≠ h' →
  Z.land (get_modifier_mask h) (get_modifier_mask h') = 0.
Proof.
  intros Hm Hm' Hne.
  assert (Hin : is_u8 h).
  { destruct (decide (is_u8 h)); [assumption |].
    contradiction Hm. by apply get_modifier_mask_outside. }
  assert (Hin' : is_u8 h').
  { destruct (decide (is_u8 h')); [assumption |].
    contradiction Hm'. by apply get_modifier_mask_outside. }
  assert (Hall : Forall (λ a, Forall (λ b,
            get_modifier_mask a ≠ 0 → get_modifier_mask b ≠ 0 → a ≠ b →
            Z.land (get_modifier_mask a) (get_modifier_mask b) = 0)
            (seqZ 0 256)) (seqZ 0 256)).
  { apply (bool_decide_unpack _). by vm_compute. }
  exact (for_all_bytes _ (for_all_bytes _ Hall h Hin) h' Hin' Hm Hm' Hne).
Qed.

Lemma other_bits_after_set (m mask mask' : Z) :
  is_u8 mask' → Z.land mask mask' = 0 →
  Z.land (u8 (Z.lor m mask)) mask' = Z.land m mask'.
Proof.
  intros Hu8 Hdisj. byte_bits n.
  assert (Hbit : Z.testbit mask n && Z.testbit mask' n = false)
    by (rewrite <- Z.land_spec, Hdisj; apply Z.bits_0).
  destruct (Z.ltb_spec n 8); cbn [andb].
  - destruct (Z.testbit m n), (Z.testbit mask n), (Z.testbit mask' n);
      cbn in *; congruence.
  - rewrite (is_u8_high_bits mask' n) by assumption. by rewrite andb_false_r.
Qed.

Lemma other_bits_after_clear (m mask mask' : Z) :
  is_u8 mask' → Z.land mask mask' = 0 →
  Z.land (u8 (Z.land m (Z.lnot mask))) mask' = Z.land m mask'.
Proof.
  intros Hu8 Hdisj. byte_bits n.
  assert (Hbit : Z.testbit mask n && Z.testbit mask' n = false)
    by (rewrite <- Z.land_spec, Hdisj; apply Z.bits_0).
  destruct (Z.ltb_spec n 8); cbn [andb].
  - destruct (Z.testbit m n), (Z.testbit mask n), (Z.testbit mask' n);
      cbn in *; congruence.
  - rewrite (is_u8_high_bits mask' n) by assumption. by rewrite andb_false_r.
Qed.

(** Overwriting one slot makes no difference to the membership of a
    value that is neither the old nor the new content of the slot. *)
Lemma elem_of_insert_other (keys : list Z) (i : nat) (old v x : Z) :
  keys !! i = Some old → x ≠ old → x ≠ v →
  x ∈ <[i := v]> keys ↔ x ∈ keys.
Proof.
  intros Hi Hold Hv. rewrite !list_elem_of_lookup. split; intros [j Hj].
  - apply list_lookup_insert_Some in Hj as [(_ & Heq & _) | (_ & Hj)];
      [congruence | eauto].
  - exists j. rewrite list_lookup_insert_ne; [assumption |].
    intros ->. congruence.
Qed.

End Others.

(** X6.  A press or release of one key leaves every other key as it was:
    an identity other than the dispatched one is tracked after the
    dispatch exactly when it was tracked before. *)
Theorem other_keys_unaffected
    (code : Z) (is_break is_extended : bool) (k : kbd_state) (h' : Z) :
  h' ≠ 0 →
  key_identity h' ≠ key_identity (translate code is_extended) →
  key_held h' (handle_scancode code is_break is_extended k) ↔ key_held h' k.
Proof.
  intros Hnz' Hother. rewrite handle_scancode_translate.
  set (h := translate code is_extended) in *.
  destruct (Z.eqb_spec h 0) as [| Hnz]; [reflexivity |].
  pose proof (key_identity_nonzero h' Hnz') as Hid'.
  unfold key_held.
  destruct (Z.eqb_spec (get_modifier_mask h') 0) as [Hplain' | Hmod'].
  - destruct (decide (get_modifier_mask h = 0)) as [Hplain | Hmod].
    + destruct is_break.
      * rewrite release_key_plain by assumption.
        destruct (find_key (g_keys k) (key_identity h)) as [i |] eqn:Hheld;
          [| reflexivity].
        apply find_key_Some in Hheld as (_ & Hi & _). cbn [g_keys].
        by apply (elem_of_insert_other _ _ (key_identity h)).
      * rewrite press_key_plain by assumption.
        destruct (find_key (g_keys k) (key_identity h)); [reflexivity |].
        destruct (find_key (g_keys k) 0) as [i |] eqn:Hslot; [| reflexivity].
        apply find_key_Some in Hslot as (_ & Hi & _). cbn [g_keys].
        by apply (elem_of_insert_other _ _ 0).
    + destruct is_break;
        [rewrite release_key_keeps_keys | rewrite press_key_keeps_keys]; done.
  - destruct (decide (get_modifier_mask h = 0)) as [Hplain | Hmod].
    + destruct is_break;
        [rewrite release_key_keeps_modifiers | rewrite press_key_keeps_modifiers];
        done.
    + assert (Hdisj : Z.land (get_modifier_mask h) (get_modifier_mask h') = 0).
      { apply modifier_masks_disjoint; [assumption .. |]. intros ->. by apply Hother. }
      destruct is_break.
      * rewrite release_key_modifier by assumption.
        destruct (_ =? 0); [reflexivity |]. cbn [g_modifiers].
        by rewrite other_bits_after_clear by (apply get_modifier_mask_u8 || done).
      * rewrite press_key_modifier by assumption.
        destruct (_ =? 0); [| reflexivity]. cbn [g_modifiers].
        by rewrite other_bits_after_set by (apply get_modifier_mask_u8 || done).
Qed.

Lemma other_keys_unaffected_witness :
  let k := {| g_modifiers := 0x02; g_keys := [0x05; 0; 0; 0; 0; 0];
              g_state_changed := false |} in
  key_held 0xFE (handle_scancode 0x14 false false k) ∧
  key_held HID_KEY_B (handle_scancode 0x1C true false k).
Proof.
  intros k. split.
  - apply (other_keys_unaffected 0x14 false false k 0xFE); [discriminate .. |].
    unfold key_held. cbn. discriminate.
  - apply (other_keys_unaffected 0x1C true false k HID_KEY_B); [discriminate .. |].
    unfold key_held. cbn. rewrite elem_of_cons. by left.
Defined.

(** ** Counting the keys that are down *)

Lemma occupied_cons (x : Z) (keys : list Z) :
  occupied (x :: keys) = ((if decide (x = 0%Z) then 0 else 1) + occupied keys)%nat.
Proof.
  unfold occupied. rewrite filter_cons.
  destruct (decide (x ≠ 0)), (decide (x = 0)); done.
Qed.

Lemma occupied_insert (keys : list Z) (i : nat) (old v : Z) :
  keys !! i = Some old →
  (occupied (<[i := v]> keys) + (if decide (old = 0%Z) then 0 else 1) =
   occupied keys + (if decide (v = 0%Z) then 0 else 1))%nat.
Proof.
  revert i. induction keys as [| x keys IH]; intros i Hi; [done |].
  destruct i as [| i].
  - injection Hi as ->. change (<[0%nat := v]> (old :: keys)) with (v :: keys).
    rewrite !occupied_cons. lia.
  - change (<[S i := v]> (x :: keys)) with (x :: <[i := v]> keys).
    rewrite !occupied_cons. specialize (IH i Hi). lia.
Qed.

(** X7.  For a mapped key that is not a modifier: a press when the key
    is not down and a slot is free raises the number of occupied slots by
    one, a release when the key is down lowers it by one, and the number
    never exceeds six. *)
Theorem occupied_slots_follow_keys (code : Z) (is_extended : bool) (k : kbd_state) :
  kbd_wf k →
  translate code is_extended ≠ 0 →
  get_modifier_mask (translate code is_extended) = 0 →
  let h := translate code is_extended in
  (¬ key_held h k → 0 ∈ g_keys k →
   occupied (g_keys (handle_scancode code false is_extended k)) = S (occupied (g_keys k))) ∧
  (key_held h k →
   S (occupied (g_keys (handle_scancode code true is_extended k))) = occupied (g_keys k)) ∧
  (occupied (g_keys k) ≤ 6)%nat.
Proof.
  intros (_ & Hlen & _) Hmapped Hplain h. fold h in Hplain, Hmapped.
  pose proof (key_identity_nonzero h Hmapped) as Hid.
  unfold key_held. rewrite Hplain. cbn [Z.eqb].
  split; [| split].
  - intros Hfree Hroom. rewrite handle_scancode_press by assumption. fold h.
    rewrite press_key_plain, (find_key_absent _ _ Hfree) by assumption.
    destruct (find_key (g_keys k) 0) as [i |] eqn:Hslot.
    + apply find_key_Some in Hslot as (_ & Hi & _). cbn [g_keys].
      pose proof (occupied_insert _ i 0 (key_identity h) Hi) as Hcount.
      destruct (decide (key_identity h = 0)); [contradiction |].
      destruct (decide (0 = 0)); [lia | contradiction].
    + exfalso. by apply (find_key_None (g_keys k) 0).
  - intros Hheld. rewrite handle_scancode_release by assumption. fold h.
    rewrite release_key_plain by assumption.
    destruct (find_key (g_keys k) (key_identity h)) as [i |] eqn:Hfound.
    + apply find_key_Some in Hfound as (_ & Hi & _). cbn [g_keys].
      pose proof (occupied_insert _ i (key_identity h) 0 Hi) as Hcount.
      destruct (decide (key_identity h = 0)); [contradiction |].
      destruct (decide (0 = 0)); [lia | contradiction].
    + exfalso. by apply (find_key_None (g_keys k) (key_identity h)).
  - unfold occupied. rewrite <- Hlen. apply length_filter.
Qed.

Lemma occupied_slots_follow_keys_witness :
  let k := {| g_modifiers := 0; g_keys := [0x05; 0; 0x04; 0; 0; 0];
              g_state_changed := false |} in
  occupied (g_keys (handle_scancode 0x21 false false k)) = 3%nat ∧
  occupied (g_keys (handle_scancode 0x1C true false k)) = 1%nat.
Proof.
  intros k. split.
  - destruct (occupied_slots_follow_keys 0x21 false k) as (Hup & _ & _);
      [kbd_wf_tac | discriminate | reflexivity |].
    rewrite Hup; [reflexivity | |].
    + unfold key_held. cbn. intros Hin.
      repeat (apply elem_of_cons in Hin as [Heq | Hin]; [discriminate Heq |]).
      by apply elem_of_nil in Hin.
    + cbn. rewrite !elem_of_cons. right. by left.
  - destruct (occupied_slots_follow_keys 0x1C false k) as (_ & Hdown & _);
      [kbd_wf_tac | discriminate | reflexivity |].
    assert (Hheld : key_held (translate 0x1C false) k).
    { unfold key_held. cbn. rewrite !elem_of_cons. right. right. by left. }
    specialize (Hdown Hheld).
    change (occupied (g_keys k)) with 2%nat in Hdown.
    exact (Nat.succ_inj _ _ Hdown).
Defined.

(** ** Framing *)

Lemma falling_edge_index_mod (d : bool) (st : ps2_state) :
  0 <= frame_bit_index st <= 10 →
  frame_bit_index (falling_edge d st) = (frame_bit_index st + 1) mod 11.
Proof.
  intros Hr. rewrite falling_edge_index.
  destruct (Z.eqb_spec (frame_bit_index st) 10) as [-> | Hne]; [reflexivity |].
  rewrite u8_small by (unfold is_u8; lia).
  symmetry. apply Z.mod_small. lia.
Qed.

Lemma run_edges_index (bits : list bool) (st : ps2_state) :
  0 <= frame_bit_index st <= 10 →
  frame_bit_index (run_edges bits st) =
    (frame_bit_index st + Z.of_nat (length bits)) mod 11.
Proof.
  revert st. induction bits as [| d bits IH]; intros st Hr.
  - cbn. rewrite Z.add_0_r. symmetry. apply Z.mod_small. lia.
  - change (run_edges (d :: bits) st) with (run_edges bits (falling_edge d st)).
    pose proof (falling_edge_index_mod d st Hr) as Hstep.
    rewrite IH, Hstep.
    + rewrite Z.add_mod_idemp_l by lia. f_equal. cbn [length]. lia.
    + rewrite Hstep. pose proof (Z.mod_pos_bound (frame_bit_index st + 1) 11). lia.
Qed.

(** X8.  The decoder frames by counting falling edges and nothing else:
    after a run of calls its bit index is the old index plus the number
    of falling edges seen, modulo 11, whatever levels the data line had.
    So it is back at a frame boundary after every 11 edges, and an edge
    too many or too few shifts every later boundary. *)
Theorem bit_index_counts_edges (samples : list sample) (st : ps2_state) :
  0 <= frame_bit_index st <= 10 →
  frame_bit_index (run_task samples st) =
    (frame_bit_index st + Z.of_nat (length (edges_of (last_clk st) samples))) mod 11.
Proof.
  intros Hr. rewrite run_task_edges. cbn [set_last_clk frame_bit_index].
  by apply run_edges_index.
Qed.

Lemma bit_index_counts_edges_witness :
  frame_bit_index
    (run_task (clocked [true; false; true; true; false; true; false;
                        true; true; false; true; false; false])
       (ps2_init true boot_state)) = 2.
Proof.
  rewrite bit_index_counts_edges; [reflexivity | cbn; lia].
Defined.

(** X9.  A run of calls acts through its falling edges only: two runs
    that show the same data levels at their falling edges and end on the
    same clock level leave the same state.  Calls without a falling edge,
    and the data level during them, make no difference. *)
Theorem polls_act_through_falling_edges (samples samples' : list sample) (st : ps2_state) :
  edges_of (last_clk st) samples = edges_of (last_clk st) samples' →
  last_clock (last_clk st) samples = last_clock (last_clk st) samples' →
  run_task samples st = run_task samples' st.
Proof. intros Hedges Hclk. by rewrite !run_task_edges, Hedges, Hclk. Qed.

Lemma polls_act_through_falling_edges_witness :
  run_task [(true, false); (true, true); (false, true); (false, false);
            (true, false); (false, false)] (ps2_init false boot_state) =
  run_task [(true, true); (false, true); (true, true); (true, true);
            (false, false)] (ps2_init false boot_state).
Proof. apply polls_act_through_falling_edges; reflexivity. Defined.

(** ** From frames to bytes *)

Lemma deliver_resets (code : Z) (st : ps2_state) :
  frame_bit_index (deliver code st) = 0 ∧ scancode_byte (deliver code st) = 0.
Proof. unfold deliver, stop_bit. done. Qed.

Lemma run_edges_app (bits bits' : list bool) (st : ps2_state) :
  run_edges (bits ++ bits') st = run_edges bits' (run_edges bits st).
Proof. unfold run_edges. apply foldl_app. Qed.

Lemma run_edges_wire_frames (frames : list wire_frame) (st : ps2_state) :
  frame_bit_index st = 0 → is_u8 (scancode_byte st) →
  Forall (λ f, is_u8 (wire_byte f)) frames →
  run_edges (frames ≫= wire_bits) st = run_bytes (wire_byte <$> frames) st.
Proof.
  revert st. induction frames as [| f frames IH]; intros st Hidx Hbyte Hall.
  - reflexivity.
  - apply Forall_cons in Hall as [Hf Hall].
    rewrite bind_cons, run_edges_app.
    change (wire_bits f) with
      (frame (wire_start f) (bits_of_byte (wire_byte f)) (wire_parity f) (wire_stop f)).
    rewrite run_edges_frame by (assumption || reflexivity).
    rewrite byte_of_bits_of_byte by assumption.
    destruct (deliver_resets (wire_byte f) st) as [Hidx' Hbyte'].
    rewrite IH; [reflexivity | assumption | | assumption].
    rewrite Hbyte'. unfold is_u8. lia.
Qed.

(** X10.  Frames decode to bytes one for one: a run of falling edges
    that is made of whole frames, started at a frame boundary, leaves the
    state that the stop-bit branch leaves when it is run on the bytes of
    the frames in turn.  Start, parity and stop bits play no part. *)
Theorem frames_decode_to_bytes (frames : list wire_frame) (st : ps2_state) :
  frame_bit_index st = 0 → is_u8 (scancode_byte st) →
  Forall (λ f, is_u8 (wire_byte f)) frames →
  run_edges (frames ≫= wire_bits) st = run_bytes (wire_byte <$> frames) st.
Proof. apply run_edges_wire_frames. Qed.

Lemma frames_decode_to_bytes_witness :
  kbd (run_edges ([WireFrame false 0x12 true true; WireFrame true 0x1C false false]
                    ≫= wire_bits) (ps2_init true boot_state)) =
  {| g_modifiers := 0x02; g_keys := [0x04; 0; 0; 0; 0; 0]; g_state_changed := true |}.
Proof.
  rewrite frames_decode_to_bytes.
  - reflexivity.
  - reflexivity.
  - by vm_compute.
  - repeat first [apply List.Forall_cons | apply List.Forall_nil]; by vm_compute.
Defined.

(** ** A key going down and up again, on the wire *)

Section Wire.

Variables (code : Z) (is_extended : bool).
Hypothesis Hmapped : translate code is_extended ≠ 0.

Lemma mapped_code_is_no_prefix : code ≠ 0xF0 ∧ code ≠ 0xE0.
Proof. split; intros ->; apply Hmapped; by destruct is_extended. Qed.

Lemma run_bytes_make (st : ps2_state) :
  break_pending st = false → extended_pending st = false →
  let st' := run_bytes (make_bytes code is_extended) st in
  kbd st' = handle_scancode code false is_extended (kbd st) ∧
  break_pending st' = false ∧ extended_pending st' = false ∧
  frame_bit_index st' = 0.
Proof.
  intros Hbp Hep. destruct mapped_code_is_no_prefix as [Hb He].
  unfold make_bytes, run_bytes. destruct is_extended; cbn [foldl].
  - rewrite deliver_extended_prefix, deliver_scancode by assumption.
    cbn [kbd break_pending extended_pending frame_bit_index]. by rewrite Hbp.
  - rewrite deliver_scancode by assumption.
    cbn [kbd break_pending extended_pending frame_bit_index]. by rewrite Hbp, Hep.
Qed.

Lemma run_bytes_break (st : ps2_state) :
  break_pending st = false → extended_pending st = false →
  let st' := run_bytes (break_bytes code is_extended) st in
  kbd st' = handle_scancode code true is_extended (kbd st) ∧
  break_pending st' = false ∧ extended_pending st' = false ∧
  frame_bit_index st' = 0.
Proof.
  intros Hbp Hep. destruct mapped_code_is_no_prefix as [Hb He].
  unfold break_bytes, run_bytes. destruct is_extended; cbn [foldl].
  - rewrite deliver_extended_prefix, deliver_break_prefix, deliver_scancode
      by assumption.
    cbn [kbd break_pending extended_pending frame_bit_index]. done.
  - rewrite deliver_break_prefix, deliver_scancode by assumption.
    cbn [kbd break_pending extended_pending frame_bit_index]. by rewrite Hep.
Qed.

End Wire.

(** X11.  A key going down and up again on the wire: from a frame
    boundary with no prefix pending, the frames of a mapped key's make
    code followed by the frames of its break code (0xE0 first for an
    extended key, 0xF0 before the scancode for the break) give back the
    keys array and the modifiers byte, provided the key was not tracked
    before; the decoder ends at a frame boundary with no prefix pending. *)
Theorem wire_make_break_round_trip
    (code : Z) (is_extended : bool) (frames : list wire_frame) (st : ps2_state) :
  frame_bit_index st = 0 → is_u8 (scancode_byte st) →
  break_pending st = false → extended_pending st = false →
  kbd_wf (kbd st) →
  translate code is_extended ≠ 0 →
  ¬ key_held (translate code is_extended) (kbd st) →
  wire_byte <$> frames = make_bytes code is_extended ++ break_bytes code is_extended →
  let st' := run_edges (frames ≫= wire_bits) st in
  g_keys (kbd st') = g_keys (kbd st) ∧
  g_modifiers (kbd st') = g_modifiers (kbd st) ∧
  break_pending st' = false ∧ extended_pending st' = false ∧
  frame_bit_index st' = 0.
Proof.
  intros Hidx Hbyte Hbp Hep Hwf Hmapped Hfree Hbytes st'. subst st'.
  pose proof (translate_mapped_u8 _ _ Hmapped) as Hcode.
  rewrite run_edges_wire_frames, Hbytes; [| assumption | assumption |].
  2:{ assert (Hu8 : Forall is_u8 (wire_byte <$> frames)).
      { rewrite Hbytes. unfold make_bytes, break_bytes.
        destruct is_extended; cbn;
          repeat first [apply List.Forall_cons | apply List.Forall_nil];
          first [assumption | unfold is_u8; lia]. }
      exact (proj1 (Forall_fmap wire_byte is_u8 frames) Hu8). }
  unfold run_bytes. rewrite foldl_app.
  fold (run_bytes (make_bytes code is_extended) st).
  destruct (run_bytes_make code is_extended Hmapped st Hbp Hep)
    as (Hk1 & Hbp1 & Hep1 & _).
  set (st1 := run_bytes (make_bytes code is_extended) st) in *.
  fold (run_bytes (break_bytes code is_extended) st1).
  destruct (run_bytes_break code is_extended Hmapped st1 Hbp1 Hep1)
    as (Hk2 & Hbp2 & Hep2 & Hidx2).
  rewrite Hk2, Hk1.
  destruct (press_release_untracked (translate code is_extended) (kbd st))
    as [Hkeys Hmods]; [apply Hwf | assumption | assumption |].
  rewrite handle_scancode_press, handle_scancode_release by assumption.
  done.
Qed.

Lemma wire_make_break_round_trip_witness :
  let st := run_edges ([WireFrame false 0x12 true true] ≫= wire_bits)
              (ps2_init true boot_state) in
  let frames := [WireFrame false 0xE0 false true; WireFrame false 0x75 true true;
                 WireFrame false 0xE0 false true; WireFrame false 0xF0 true true;
                 WireFrame false 0x75 true true] in
  g_keys (kbd (run_edges (frames ≫= wire_bits) st)) = g_keys (kbd st) ∧
  g_modifiers (kbd (run_edges (frames ≫= wire_bits) st)) = g_modifiers (kbd st).
Proof.
  intros st frames.
  destruct (wire_make_break_round_trip 0x75 true frames st)
    as (Hkeys & Hmods & _); try reflexivity.
  - by vm_compute.
  - vm_compute.
    repeat first [split | apply List.Forall_cons | apply List.Forall_nil]; done.
  - discriminate.
  - unfold key_held.
    change (g_keys (kbd st)) with [0; 0; 0; 0; 0; 0]. cbn. intros Hin.
    repeat (apply elem_of_cons in Hin as [Heq | Hin]; [discriminate Heq |]).
    by apply elem_of_nil in Hin.
  - split; assumption.
Defined.

(** * The main program *)

(** ** GET_REPORT *)

(** X12.  GET_REPORT: asked for an input report of at least 8 bytes,
    [tud_hid_get_report_cb] returns 8 and fills the first 8 bytes of the
    buffer with the boot keyboard report (the modifiers byte, a zero
    byte, the six key slots in order), leaving the rest of the buffer as
    it was; for any other report type or a shorter request it returns 0
    and leaves the buffer untouched.  The decoder state is the same
    afterwards in every case. *)
Theorem get_report_layout
    (HID_REPORT_TYPE_INPUT report_type reqlen : Z) (buffer : list Z) (st : ps2_state) :
  length (g_keys (kbd st)) = 6%nat →
  (8 ≤ length buffer)%nat →
  tud_hid_get_report_cb HID_REPORT_TYPE_INPUT report_type reqlen buffer st =
    if (report_type =? HID_REPORT_TYPE_INPUT) && (8 <=? reqlen)
    then (8, g_modifiers (kbd st) :: 0 :: g_keys (kbd st) ++ drop 8 buffer, st)
    else (0, buffer, st).
Proof.
  intros Hkeys Hbuf. unfold tud_hid_get_report_cb.
  destruct (report_type =? HID_REPORT_TYPE_INPUT); [| reflexivity].
  destruct (8 <=? reqlen); [| reflexivity].
  cbn [andb ps2_get_modifiers ps2_get_keys].
  destruct (g_keys (kbd st)) as [| k0 [| k1 [| k2 [| k3 [| k4 [| k5 [| ? ?]]]]]]];
    try discriminate Hkeys.
  do 8 (destruct buffer as [| ? buffer]; [cbn in Hbuf; lia |]).
  reflexivity.
Qed.

Lemma get_report_layout_witness :
  tud_hid_get_report_cb 1 1 64 [9; 9; 9; 9; 9; 9; 9; 9; 7; 7]
    {| kbd := {| g_modifiers := 0x02; g_keys := [0x04; 0; 0x05; 0; 0; 0];
                 g_state_changed := true |};
       frame_bit_index := 0; scancode_byte := 0;
       break_pending := false; extended_pending := false;
       last_clk := true |} =
  (8, [0x02; 0; 0x04; 0; 0x05; 0; 0; 0; 7; 7],
   {| kbd := {| g_modifiers := 0x02; g_keys := [0x04; 0; 0x05; 0; 0; 0];
                g_state_changed := true |};
      frame_bit_index := 0; scancode_byte := 0;
      break_pending := false; extended_pending := false;
      last_clk := true |}).
Proof.
  rewrite get_report_layout; [reflexivity | reflexivity | cbn; lia].
Defined.

(** ** The report task *)

Section HidTask.

Variables (millis : Z) (suspended hid_ready : bool) (s : main_state).

Lemma hid_task_cases :
  hid_task millis suspended hid_ready s =
    if negb (hid_due millis s) then (s, [])
    else
      let s1 :=
        {| ps2 := ps2 s; blink_interval_ms := blink_interval_ms s;
           led_start_ms := led_start_ms s; led_state := led_state s;
           hid_start_ms := u32 (hid_start_ms s + 10) |} in
      if suspended then (s1, [])
      else if g_state_changed (kbd (ps2 s)) then
        (set_ps2 (ps2_clear_changed (ps2 s)) s1,
         if hid_ready
         then [HidKeyboardReport 0 (g_modifiers (kbd (ps2 s))) (g_keys (kbd (ps2 s)))]
         else [])
      else (s1, []).
Proof.
  unfold hid_task, hid_due, send_hid_report. cbv zeta.
  destruct (_ <? 10); [reflexivity |]. cbn [negb].
  destruct suspended; [reflexivity |].
  cbn [ps2_state_changed ps2 ps2_get_modifiers ps2_get_keys].
  destruct (g_state_changed (kbd (ps2 s))); [| reflexivity].
  destruct hid_ready; reflexivity.
Qed.

End HidTask.

(** X13.  [hid_task] sends a keyboard report exactly when its 10 ms have
    passed, the bus is not suspended, the changed flag is set and the HID
    endpoint is ready; the report has id 0 and carries the modifiers byte
    and the keys array as they stand.  Whatever it does, it leaves the
    modifiers, the keys, the frame decoder and the blink state alone. *)
Theorem hid_task_report (millis : Z) (suspended hid_ready : bool) (s : main_state) :
  let s' := (hid_task millis suspended hid_ready s).1 in
  (hid_task millis suspended hid_ready s).2 =
    (if hid_due millis s && negb suspended &&
        g_state_changed (kbd (ps2 s)) && hid_ready
     then [HidKeyboardReport 0 (g_modifiers (kbd (ps2 s))) (g_keys (kbd (ps2 s)))]
     else []) ∧
  g_modifiers (kbd (ps2 s')) = g_modifiers (kbd (ps2 s)) ∧
  g_keys (kbd (ps2 s')) = g_keys (kbd (ps2 s)) ∧
  decoder_fields (ps2 s') = decoder_fields (ps2 s) ∧
  blink_interval_ms s' = blink_interval_ms s ∧
  led_start_ms s' = led_start_ms s ∧
  led_state s' = led_state s.
Proof.
  cbv zeta. rewrite hid_task_cases.
  destruct (hid_due millis s); [| done]. cbn [negb andb].
  destruct suspended; [done |]. cbn [negb andb].
  destruct (g_state_changed (kbd (ps2 s))); [| done].
  destruct hid_ready; done.
Qed.

Lemma hid_task_clean (millis : Z) (suspended hid_ready : bool) (s : main_state) :
  g_state_changed (kbd (ps2 s)) = false →
  (hid_task millis suspended hid_ready s).2 = [] ∧
  g_state_changed (kbd (ps2 (hid_task millis suspended hid_ready s).1)) = false.
Proof.
  intros Hclean. rewrite hid_task_cases.
  destruct (hid_due millis s); cbn [negb]; [| done].
  destruct suspended; [done |]. by rewrite Hclean.
Qed.

Lemma run_hid_clean (inputs : list (Z * bool * bool)) (s : main_state) :
  g_state_changed (kbd (ps2 s)) = false →
  (run_hid inputs s).2 = [] ∧
  g_state_changed (kbd (ps2 (run_hid inputs s).1)) = false.
Proof.
  revert s. induction inputs as [| [[millis suspended] hid_ready] inputs IH];
    intros s Hclean; [done |].
  cbn [run_hid].
  destruct (hid_task_clean millis suspended hid_ready s Hclean) as [Hnone Hclean1].
  destruct (hid_task millis suspended hid_ready s) as [s1 events1].
  cbn [fst snd] in Hnone, Hclean1. subst events1.
  destruct (IH s1 Hclean1) as [Hnone' Hclean'].
  destruct (run_hid inputs s1) as [s2 events2]. done.
Qed.

(** X14.  A call of [hid_task] whose 10 ms have passed, with the bus not
    suspended, leaves the changed flag clear whether or not the report
    could be sent; with the HID endpoint not ready it sends nothing.
    From then on no call of [hid_task] sends a report, whatever the
    time and the answers of the USB stack, until the decoder sets the
    flag again: a change that falls on a moment when the endpoint is not
    ready is not reported later by itself. *)
Theorem hid_task_clears_changed
    (millis : Z) (hid_ready : bool) (s : main_state) (later : list (Z * bool * bool)) :
  hid_due millis s = true →
  let s' := (hid_task millis false hid_ready s).1 in
  g_state_changed (kbd (ps2 s')) = false ∧
  (hid_ready = false → (hid_task millis false hid_ready s).2 = []) ∧
  (run_hid later s').2 = [].
Proof.
  intros Hdue. cbv zeta.
  assert (Hclean : g_state_changed (kbd (ps2 (hid_task millis false hid_ready s).1)) = false).
  { rewrite hid_task_cases, Hdue. cbn [negb].
    destruct (g_state_changed (kbd (ps2 s))) eqn:Hch; [reflexivity | exact Hch]. }
  split; [exact Hclean | split].
  - intros ->. rewrite hid_task_cases, Hdue. cbn [negb].
    by destruct (g_state_changed (kbd (ps2 s))).
  - by apply run_hid_clean.
Qed.

Lemma hid_task_clears_changed_witness :
  let s := set_ps2 (run_bytes [0x1C] (ps2_init true boot_state)) (main_init true) in
  g_state_changed (kbd (ps2 s)) = true ∧
  (hid_task 10 false false s).2 = [] ∧
  (run_hid [(20, false, true); (30, false, true)] (hid_task 10 false false s).1).2 = [].
Proof.
  intros s.
  destruct (hid_task_clears_changed 10 false s [(20, false, true); (30, false, true)])
    as (_ & Hnone & Hlater); [reflexivity |].
  split; [reflexivity | split; [by apply Hnone | exact Hlater]].
Defined.

(** X15.  The 10 ms timer of [hid_task] works on the 32-bit millisecond
    counter modulo 2^32: the task is due exactly when the counter is at
    least 10 ahead of its mark, and a due call moves the mark 10 on, so
    that the lead shrinks by exactly 10, also across a wrap of the
    counter.  A call that is not due leaves the mark. *)
Theorem hid_task_timer (millis : Z) (suspended hid_ready : bool) (s : main_state) :
  let lead := u32 (millis - hid_start_ms s) in
  let s' := (hid_task millis suspended hid_ready s).1 in
  (hid_due millis s = true ↔ 10 <= lead) ∧
  (hid_due millis s = true → u32 (millis - hid_start_ms s') = lead - 10) ∧
  (hid_due millis s = false → hid_start_ms s' = hid_start_ms s).
Proof.
  cbv zeta.
  assert (Hdue : hid_due millis s = true ↔ 10 <= u32 (millis - hid_start_ms s)).
  { unfold hid_due. destruct (Z.ltb_spec (u32 (millis - hid_start_ms s)) 10);
      cbn [negb]; split; (lia || done). }
  split; [exact Hdue | split].
  - intros Hd. pose proof (proj1 Hdue Hd) as Hlead.
    assert (Hmark : hid_start_ms (hid_task millis suspended hid_ready s).1 =
                    u32 (hid_start_ms s + 10)).
    { rewrite hid_task_cases, Hd. cbn [negb].
      destruct suspended; [reflexivity |].
      by destruct (g_state_changed (kbd (ps2 s))). }
    rewrite Hmark. unfold u32 in *.
    rewrite Zminus_mod_idemp_r.
    replace (millis - (hid_start_ms s + 10)) with (millis - hid_start_ms s - 10) by lia.
    rewrite <- Zminus_mod_idemp_l.
    apply Z.mod_small.
    pose proof (Z.mod_pos_bound (millis - hid_start_ms s) 4294967296). lia.
  - intros Hd. rewrite hid_task_cases, Hd. reflexivity.
Qed.

Lemma hid_task_timer_witness :
  let s := {| ps2 := boot_state; blink_interval_ms := 250; led_start_ms := 0;
              led_state := false; hid_start_ms := 4294967290 |} in
  u32 (25 - hid_start_ms (hid_task 25 false true s).1) = 21.
Proof.
  intros s.
  destruct (hid_task_timer 25 false true s) as (_ & Hstep & _).
  rewrite Hstep; reflexivity.
Defined.

(** ** The LED *)

Lemma run_led_disabled (times : list Z) (s : main_state) :
  blink_interval_ms s = 0 → run_led times s = (s, []).
Proof.
  intros Hoff. induction times as [| t times IH]; [reflexivity |].
  cbn [run_led]. unfold led_blinking_task. rewrite Hoff. cbn [Z.eqb].
  by rewrite IH.
Qed.

(** X16.  Caps Lock latches the LED: an output report of at least one
    byte whose first byte has the Caps Lock bit set turns the LED on and
    switches blinking off, so that no later call of [led_blinking_task],
    at whatever time, writes the LED or changes anything, for as long as
    no other callback sets a blink interval. *)
Theorem caps_lock_latches_led
    (HID_REPORT_TYPE_OUTPUT KEYBOARD_LED_CAPSLOCK : Z)
    (bufsize kbd_leds : Z) (rest : list Z) (s : main_state) (times : list Z) :
  1 <= bufsize →
  Z.land kbd_leds KEYBOARD_LED_CAPSLOCK ≠ 0 →
  let r := tud_hid_set_report_cb HID_REPORT_TYPE_OUTPUT KEYBOARD_LED_CAPSLOCK
             HID_REPORT_TYPE_OUTPUT bufsize (kbd_leds :: rest) s in
  r.2 = [BoardLedWrite true] ∧
  ps2 r.1 = ps2 s ∧
  run_led times r.1 = (r.1, []).
Proof.
  intros Hsize Hcaps r. subst r. unfold tud_hid_set_report_cb.
  rewrite Z.eqb_refl.
  destruct (Z.ltb_spec bufsize 1); [lia |].
  destruct (Z.eqb_spec (Z.land kbd_leds KEYBOARD_LED_CAPSLOCK) 0); [contradiction |].
  cbn [negb fst snd]. repeat split.
  by apply run_led_disabled.
Qed.

Lemma caps_lock_latches_led_witness :
  let r := tud_hid_set_report_cb 2 2 2 1 [0x03] (main_init true) in
  r.2 = [BoardLedWrite true] ∧ run_led [250; 1000; 5000] r.1 = (r.1, []).
Proof.
  destruct (caps_lock_latches_led 2 2 1 0x03 [] (main_init true) [250; 1000; 5000])
    as (Hon & _ & Hquiet); [lia | discriminate |].
  split; [exact Hon | exact Hquiet].
Defined.

(** ** Whole runs of the program *)

Section Runs.

Variables HID_REPORT_TYPE_OUTPUT KEYBOARD_LED_CAPSLOCK : Z.

Lemma report_well_formed_of_inv (k : kbd_state) :
  kbd_inv k → report_well_formed (HidKeyboardReport 0 (g_modifiers k) (g_keys k)).
Proof. intros ((Hm & Hlen & _) & Hord & Hdist). done. Qed.

Lemma hid_task_well_formed (millis : Z) (suspended hid_ready : bool) (s : main_state) :
  kbd_inv (kbd (ps2 s)) →
  kbd_inv (kbd (ps2 (hid_task millis suspended hid_ready s).1)) ∧
  Forall report_well_formed (hid_task millis suspended hid_ready s).2.
Proof.
  intros Hinv. rewrite hid_task_cases.
  destruct (hid_due millis s); cbn [negb]; [| done].
  destruct suspended; [done |].
  destruct (g_state_changed (kbd (ps2 s))); [| done].
  split; [exact Hinv |].
  destruct hid_ready; [| done].
  apply Forall_singleton. by apply report_well_formed_of_inv.
Qed.

Lemma led_blinking_task_well_formed (millis : Z) (s : main_state) :
  ps2 (led_blinking_task millis s).1 = ps2 s ∧
  Forall report_well_formed (led_blinking_task millis s).2.
Proof.
  unfold led_blinking_task.
  destruct (_ =? 0); [done |]. destruct (_ <? _); [done |].
  split; [reflexivity |]. by apply Forall_singleton.
Qed.

Lemma loop_pass_well_formed (i : loop_input) (s : main_state) :
  kbd_inv (kbd (ps2 s)) →
  kbd_inv (kbd (ps2 (loop_pass i s).1)) ∧
  Forall report_well_formed (loop_pass i s).2.
Proof.
  intros Hinv. unfold loop_pass.
  destruct (led_blinking_task_well_formed (in_led_millis i) s) as [Hps2 Hled].
  destruct (led_blinking_task (in_led_millis i) s) as [s1 led_events].
  cbn [fst snd] in Hps2, Hled.
  set (s2 := set_ps2 (ps2_task (in_clk i) (in_data i) (ps2 s1)) s1).
  assert (Hinv2 : kbd_inv (kbd (ps2 s2))).
  { cbn [s2 set_ps2 ps2]. rewrite Hps2. by apply ps2_task_inv. }
  destruct (hid_task_well_formed (in_hid_millis i) (in_suspended i)
              (in_hid_ready i) s2 Hinv2) as [Hinv3 Hhid].
  destruct (hid_task _ _ _ s2) as [s3 hid_events]. cbn [fst snd] in *.
  split; [assumption | by apply Forall_app].
Qed.

Lemma run_callback_well_formed (c : callback) (s : main_state) :
  ps2 (run_callback HID_REPORT_TYPE_OUTPUT KEYBOARD_LED_CAPSLOCK c s).1 = ps2 s ∧
  Forall report_well_formed
    (run_callback HID_REPORT_TYPE_OUTPUT KEYBOARD_LED_CAPSLOCK c s).2.
Proof.
  destruct c as [| | ? | ? | | report_type bufsize buffer]; try done.
  cbn [run_callback]. unfold tud_hid_set_report_cb.
  destruct (_ =? HID_REPORT_TYPE_OUTPUT); [| done].
  destruct (_ <? 1); [done |].
  destruct buffer as [| kbd_leds ?]; [done |].
  destruct (negb _); (split; [reflexivity | by apply Forall_singleton]).
Qed.

Lemma run_steps_well_formed (xs : list step) (s : main_state) :
  kbd_inv (kbd (ps2 s)) →
  kbd_inv (kbd (ps2 (run_steps HID_REPORT_TYPE_OUTPUT KEYBOARD_LED_CAPSLOCK xs s).1)) ∧
  Forall report_well_formed
    (run_steps HID_REPORT_TYPE_OUTPUT KEYBOARD_LED_CAPSLOCK xs s).2.
Proof.
  revert s. induction xs as [| x xs IH]; intros s Hinv; [done |].
  cbn [run_steps].
  assert (Hstep : kbd_inv (kbd (ps2 (run_step HID_REPORT_TYPE_OUTPUT
                                       KEYBOARD_LED_CAPSLOCK x s).1)) ∧
                  Forall report_well_formed
                    (run_step HID_REPORT_TYPE_OUTPUT KEYBOARD_LED_CAPSLOCK x s).2).
  { destruct x as [c | i]; cbn [run_step].
    - destruct (run_callback_well_formed c s) as [-> Hev]. done.
    - by apply loop_pass_well_formed. }
  destruct Hstep as [Hinv1 Hev1].
  destruct (run_step _ _ x s) as [s1 events1]. cbn [fst snd] in Hinv1, Hev1.
  destruct (IH s1 Hinv1) as [Hinv2 Hev2].
  destruct (run_steps _ _ xs s1) as [s2 events2]. cbn [fst snd] in *.
  split; [assumption | by apply Forall_app].
Qed.

End Runs.

(** X17.  Every keyboard report the program ever sends is well formed:
    from the state [main] enters its loop with, through any run of loop
    passes and callbacks, with whatever the lines, the clock and the USB
    stack do, each report has id 0, a modifiers byte, six key slots that
    hold 0 or an ordinary keycode (never a modifier or Caps Lock
    sentinel), and no keycode in two slots. *)
Theorem every_report_well_formed
    (HID_REPORT_TYPE_OUTPUT KEYBOARD_LED_CAPSLOCK : Z) (clk : bool) (xs : list step) :
  Forall report_well_formed
    (run_steps HID_REPORT_TYPE_OUTPUT KEYBOARD_LED_CAPSLOCK xs (main_init clk)).2.
Proof. apply run_steps_well_formed, kbd_inv_init. Qed.

(** X18.  A report sent in a pass of the loop shows the state the pass
    ends in: [hid_task] runs after [ps2_task], so a key change that the
    pass decodes is in the report of the same pass, and the pass then
    ends with the changed flag clear. *)
Theorem pass_reports_its_own_changes
    (i : loop_input) (s : main_state) (report_id modifier : Z) (keycode : list Z) :
  HidKeyboardReport report_id modifier keycode ∈ (loop_pass i s).2 →
  modifier = g_modifiers (kbd (ps2 (loop_pass i s).1)) ∧
  keycode = g_keys (kbd (ps2 (loop_pass i s).1)) ∧
  g_state_changed (kbd (ps2 (loop_pass i s).1)) = false ∧
  kbd (ps2 (loop_pass i s).1) =
    kbd (ps2_clear_changed (ps2_task (in_clk i) (in_data i) (ps2 s))).
Proof.
  unfold loop_pass.
  destruct (led_blinking_task_well_formed (in_led_millis i) s) as [Hps2 _].
  assert (Hled : ∀ e, e ∈ (led_blinking_task (in_led_millis i) s).2 →
                      ∃ on, e = BoardLedWrite on).
  { unfold led_blinking_task. destruct (_ =? 0); [by intros ? ?%elem_of_nil |].
    destruct (_ <? _); [by intros ? ?%elem_of_nil |].
    intros e ->%list_elem_of_singleton. eauto. }
  destruct (led_blinking_task (in_led_millis i) s) as [s1 led_events].
  cbn [fst snd] in Hps2, Hled.
  set (s2 := set_ps2 (ps2_task (in_clk i) (in_data i) (ps2 s1)) s1).
  rewrite hid_task_cases.
  destruct (hid_due (in_hid_millis i) s2); cbn [negb fst snd].
  2:{ rewrite app_nil_r. intros [on Hon]%Hled. discriminate Hon. }
  destruct (in_suspended i); cbn [fst snd].
  { rewrite app_nil_r. intros [on Hon]%Hled. discriminate Hon. }
  destruct (g_state_changed (kbd (ps2 s2))); cbn [fst snd].
  2:{ rewrite app_nil_r. intros [on Hon]%Hled. discriminate Hon. }
  destruct (in_hid_ready i).
  2:{ rewrite app_nil_r. intros [on Hon]%Hled. discriminate Hon. }
  intros [[on Hon]%Hled | Hin%list_elem_of_singleton]%elem_of_app;
    [discriminate Hon |].
  injection Hin as _ -> ->. cbn [s2 set_ps2 ps2]. rewrite Hps2. done.
Qed.

Lemma pass_reports_its_own_changes_witness :
  let s := set_ps2 (with_frame 10 0x1C (ps2_init true boot_state)) (main_init true) in
  let i := {| in_led_millis := 5; in_clk := false; in_data := true;
              in_hid_millis := 12; in_suspended := false; in_hid_ready := true |} in
  g_keys (kbd (ps2 (loop_pass i s).1)) = [HID_KEY_A; 0; 0; 0; 0; 0] ∧
  g_state_changed (kbd (ps2 (loop_pass i s).1)) = false.
Proof.
  intros s i.
  destruct (pass_reports_its_own_changes i s 0 0 [HID_KEY_A; 0; 0; 0; 0; 0])
    as (_ & Hkeys & Hclean & _).
  - apply list_elem_of_singleton. reflexivity.
  - split; [symmetry; exact Hkeys | exact Hclean].
Defined.

(** ** Blinking *)

Lemma run_led_alternates (times : list Z) (s : main_state) :
  ∃ n : nat,
    (run_led times s).2 =
      (λ k, BoardLedWrite (xorb (led_state s) (Nat.odd k))) <$> seq 0 n ∧
    led_state (run_led times s).1 = xorb (led_state s) (Nat.odd n) ∧
    blink_interval_ms (run_led times s).1 = blink_interval_ms s ∧
    ps2 (run_led times s).1 = ps2 s.
Proof.
  revert s. induction times as [| t times IH]; intros s.
  { exists 0%nat. cbn. by rewrite xorb_false_r. }
  cbn [run_led]. unfold led_blinking_task.
  destruct (blink_interval_ms s =? 0) eqn:Hoff.
  { destruct (IH s) as (n & Hev & Hled & Hblink & Hps2).
    destruct (run_led times s) as [s' events]. cbn [fst snd] in *.
    exists n. done. }
  destruct (u32 (t - led_start_ms s) <? blink_interval_ms s).
  { destruct (IH s) as (n & Hev & Hled & Hblink & Hps2).
    destruct (run_led times s) as [s' events]. cbn [fst snd] in *.
    exists n. done. }
  match goal with
  | |- context [run_led times ?s1] =>
      destruct (IH s1) as (n & Hev & Hled & Hblink & Hps2);
      destruct (run_led times s1) as [s' events]
  end.
  cbn [fst snd led_state blink_interval_ms ps2] in *.
  exists (S n). repeat split; try assumption.
  - rewrite Hev. cbn [seq fmap list_fmap Nat.odd Nat.even app].
    rewrite xorb_false_r. f_equal.
    rewrite <- seq_shift, <- list_fmap_compose.
    apply list_fmap_ext. intros _ k _. cbn [compose].
    rewrite Nat.odd_succ, <- Nat.negb_odd. by destruct (led_state s), (Nat.odd k).
  - rewrite Hled, Nat.odd_succ, <- Nat.negb_odd.
    by destruct (led_state s), (Nat.odd n).
Qed.

(** X19.  The LED blinks: over any run of calls of [led_blinking_task],
    at whatever times, the levels written to the LED alternate, starting
    with the current [led_state]; afterwards [led_state] is the level the
    next write will use.  The task touches neither the blink interval nor
    the decoder. *)
Theorem led_writes_alternate (times : list Z) (s : main_state) :
  ∃ n : nat,
    (run_led times s).2 =
      (λ k, BoardLedWrite (xorb (led_state s) (Nat.odd k))) <$> seq 0 n ∧
    led_state (run_led times s).1 = xorb (led_state s) (Nat.odd n) ∧
    blink_interval_ms (run_led times s).1 = blink_interval_ms s ∧
    ps2 (run_led times s).1 = ps2 s.
Proof. apply run_led_alternates. Qed.
